(** * RAG index loader, similarity search and initialization pipeline

    A shallow embedding of

    - [services/rag/index_loader.py]  ([RAGIndexLoader]),
    - [services/rag/main.py]          (background loading loop, health and
                                       readiness probes, query, reload),
    - [src/alm/database.py]           ([init_tables], the engine URL),
    - [backend_init_pipeline.py]      ([main]).

    Conventions.

    - A Python exception is a value; a call that may raise returns a sum
      whose left injection is the exception raised.
    - A finite [float32] or [float] stands for the rational it denotes
      ([Q]); NaN and infinities are outside the model.  The first model of
      the query computes scores and compares them with the threshold as
      exact rationals; the second one ([F32]) takes the scores as FAISS
      reports them and makes the comparison in [float32], as NumPy does.
    - Python dictionaries are [gmap]s.
    - [print] calls have no effect on the state and are left out; the
      branches that only differ in what they print are kept apart in
      comments. *)

From Stdlib Require Import QArith Lqa Ascii DecimalString.
From Stdlib Require Floats.SpecFloat.
From stdpp Require Import gmap strings list fin_maps sorting.

Open Scope Z_scope.

(** ** Exceptions and small helpers *)

(** The exceptions of the RAG service.  All of them derive from
    [Exception]; [OtherException] stands for the remaining classes (driver
    and connection errors, [IndexError], [TypeError]), none of which is a
    [ValueError].  Cancellation of a task, a [BaseException], is not part
    of this type: the service never cancels its loading task. *)
Inductive exn :=
| ValueError (msg : string)
| KeyError (msg : string)
| AssertionError (msg : string)
| OtherException (msg : string).

(** [str(e)] *)
Definition str_exn (e : exn) : string :=
  match e with
  | ValueError m | KeyError m | AssertionError m | OtherException m => m
  end.

(** [str(z)] for an integer, as an f-string prints it. *)
Definition str_Z (z : Z) : string := NilZero.string_of_int (Z.to_int z).

(** [sub in s] on Python strings. *)
Fixpoint contains (sub s : string) : bool :=
  String.prefix sub s ||
  match s with
  | EmptyString => false
  | String _ s' => contains sub s'
  end.

Definition bind_exn {A B} (m : exn + A) (k : A -> exn + B) : exn + B :=
  match m with
  | inl e => inl e
  | inr a => k a
  end.

Notation "x <-! m ; k" := (bind_exn m (fun x => k))
  (at level 60, m at next level, right associativity, only parsing).

(** ** Data model *)

(** The JSON column [error_metadata]: an object with optional keys
    ["sections"] and ["metadata"]. *)
Record error_metadata_t := {
  md_sections : option (gmap string string);
  md_metadata : option (gmap string string)
}.

(** The [embedding] column: a native sequence, the textual encoding
    pgvector returns when no codec is registered, or NULL. *)
Inductive embedding_col :=
| EmbArray (v : list Q)
| EmbStr (s : string)
| EmbNull.

(** A Python value as [json.loads] or [ast.literal_eval] returns it, by
    what [np.array(..., dtype=np.float32)] makes of it. *)
Inductive pyvalue :=
| PyNumbers (v : list Q)   (* a flat sequence of numbers *)
| PyScalar                 (* [None], a number, [True], [False] *)
| PyOther (e : exn).       (* a value the conversion refuses, by [e] *)

(** One row of [SELECT error_id, embedding, error_title, error_metadata,
    model_name, embedding_dim FROM ragembedding ORDER BY error_id]. *)
Record db_row := {
  error_id : string;                          (* row[0] *)
  embedding : embedding_col;                  (* row[1] *)
  error_title : string;                       (* row[2] *)
  error_metadata : option error_metadata_t;   (* row[3] *)
  model_name_db : string;                     (* row[4] *)
  embedding_dim_db : Z                        (* row[5] *)
}.

(** What the [async with self.engine.begin()] block yields: the fetched
    rows, or the exception the driver raised. *)
Inductive db_result :=
| DbRows (rows : list db_row)
| DbRaise (e : exn).

(** A value of [error_store]. *)
Record payload := {
  pl_error_id : string;
  pl_error_title : string;
  pl_sections : gmap string string;
  pl_metadata : gmap string string
}.

(** [faiss.IndexFlatIP]: the dimension [d] and the stored rows. *)
Record IndexFlatIP := {
  faiss_d : Z;
  faiss_xb : list (list Q)
}.

Definition ntotal (ix : IndexFlatIP) : nat := length (faiss_xb ix).

(** [faiss.IndexFlatIP(d)] *)
Definition IndexFlatIP_new (dim : Z) : IndexFlatIP :=
  {| faiss_d := dim; faiss_xb := [] |}.

(** [index.add(x)]: the Python wrapper asserts that the second axis of
    [x] is [d]. *)
Definition IndexFlatIP_add (ix : IndexFlatIP) (x : list (list Q))
  : exn + IndexFlatIP :=
  if forallb (fun v => Z.of_nat (length v) =? faiss_d ix) x
  then inr {| faiss_d := faiss_d ix; faiss_xb := faiss_xb ix ++ x |}
  else inl (AssertionError "assert d == self.d").

(** The fields of [RAGIndexLoader] that the loader reads and writes.  The
    connection ([database_url], [engine], [session_factory]) is represented
    by the [db_result] each call receives. *)
Record RAGIndexLoader := {
  model_name : string;
  embedding_dim : Z;
  index : option IndexFlatIP;
  error_store : gmap string payload;
  index_to_error_id : gmap Z string;
  _loaded : bool
}.

(** [RAGIndexLoader.__init__] *)
Definition RAGIndexLoader_init (model : string) : RAGIndexLoader :=
  {| model_name := model;
     embedding_dim := 768;
     index := None;
     error_store := ∅;
     index_to_error_id := ∅;
     _loaded := false |}.

(** The tuple [load_index] returns. *)
Definition snapshot : Type :=
  IndexFlatIP * gmap string payload * gmap Z string.

(** The local variables of the row loop of [load_index]. *)
Record build_acc := {
  embeddings_list : list (list Q);
  error_ids : list string;
  acc_error_store : gmap string payload;
  acc_index_to_error_id : gmap Z string
}.

Definition build_acc_empty : build_acc :=
  {| embeddings_list := []; error_ids := [];
     acc_error_store := ∅; acc_index_to_error_id := ∅ |}.

(** ** The index loader *)

Section Loader.

(** [json.loads] and [ast.literal_eval] of the Python standard library.
    [None] stands for [json.JSONDecodeError], respectively for
    [ValueError]/[SyntaxError]. *)
Variable json_loads : string -> option pyvalue.
Variable literal_eval : string -> option pyvalue.

(** Lines 117-133: the value [embedding] is bound to when line 135 is
    reached. *)
Definition parse_embedding (eid : string) (e : embedding_col)
  : exn + pyvalue :=
  match e with
  | EmbArray v => inr (PyNumbers v)
  | EmbNull => inr PyScalar
  | EmbStr s =>
      match json_loads s with
      | Some x => inr x
      | None =>
          match literal_eval s with
          | Some x => inr x
          | None =>
              inl (ValueError ("Could not parse embedding for " +:+ eid
                               +:+ ": invalid format"))
          end
      end
  end.

(** Line 135 and the [shape[0]] of line 138: a flat sequence becomes an
    array with one axis; a scalar becomes an array without axes, on which
    [shape[0]] raises [IndexError]; any other value is refused by the
    conversion ([ValueError] for a text, [TypeError] for an object).
    Nested sequences are outside the model. *)
Definition np_array_float32 (x : pyvalue) : exn + list Q :=
  match x with
  | PyNumbers v => inr v
  | PyScalar => inl (OtherException "tuple index out of range")
  | PyOther e => inl e
  end.

(** Lines 117-138: the [embedding] column as an array with a first
    axis. *)
Definition decode_embedding (eid : string) (e : embedding_col)
  : exn + list Q :=
  x <-! parse_embedding eid e;
  np_array_float32 x.

(** Lines 96-155: the body of the row loop.  A model-name mismatch only
    prints a warning. *)
Definition load_row (self : RAGIndexLoader) (idx : Z) (row : db_row)
    (acc : build_acc) : exn + build_acc :=
  let md := default {| md_sections := None; md_metadata := None |}
                    (error_metadata row) in
  if negb (embedding_dim_db row =? embedding_dim self) then
    inl (ValueError ("Embedding dimension mismatch: DB has "
                     +:+ str_Z (embedding_dim_db row) +:+ ", expected "
                     +:+ str_Z (embedding_dim self)))
  else
    embedding_array <-! decode_embedding (error_id row) (embedding row);
    if negb (Z.of_nat (length embedding_array) =? embedding_dim self) then
      inl (ValueError ("Invalid embedding shape for " +:+ error_id row
                       +:+ ": expected " +:+ str_Z (embedding_dim self)
                       +:+ ", got "
                       +:+ str_Z (Z.of_nat (length embedding_array))))
    else
      inr {| embeddings_list := embeddings_list acc ++ [embedding_array];
             error_ids := error_ids acc ++ [error_id row];
             acc_error_store :=
               <[error_id row :=
                   {| pl_error_id := error_id row;
                      pl_error_title := error_title row;
                      pl_sections := default ∅ (md_sections md);
                      pl_metadata := default ∅ (md_metadata md) |}]>
                 (acc_error_store acc);
             acc_index_to_error_id :=
               <[idx := error_id row]> (acc_index_to_error_id acc) |}.

(** [for idx, row in enumerate(rows)] *)
Fixpoint load_rows (self : RAGIndexLoader) (idx : Z) (rows : list db_row)
    (acc : build_acc) : exn + build_acc :=
  match rows with
  | [] => inr acc
  | row :: rest =>
      acc' <-! load_row self idx row acc;
      load_rows self (idx + 1) rest acc'
  end.

(** Lines 84-171: everything between the query and the assignments to
    [self]. *)
Definition build_index (self : RAGIndexLoader) (rows : list db_row)
  : exn + snapshot :=
  match rows with
  | [] => inl (ValueError
                 "No embeddings found in PostgreSQL. Run init job first.")
  | _ =>
      acc <-! load_rows self 0 rows build_acc_empty;
      ix <-! IndexFlatIP_add (IndexFlatIP_new (embedding_dim self))
                             (embeddings_list acc);
      inr (ix, acc_error_store acc, acc_index_to_error_id acc)
  end.

(** [RAGIndexLoader.load_index].  The second component is [self] after the
    call. *)
Definition load_index (self : RAGIndexLoader) (db : db_result)
  : (exn + snapshot) * RAGIndexLoader :=
  match _loaded self, index self with
  | true, Some ix =>
      (inr (ix, error_store self, index_to_error_id self), self)
  | _, _ =>
      match db with
      | DbRaise e => (inl e, self)
      | DbRows rows =>
          match build_index self rows with
          | inl e => (inl e, self)
          | inr (ix, es, i2e) =>
              (inr (ix, es, i2e),
               {| model_name := model_name self;
                  embedding_dim := embedding_dim self;
                  index := Some ix;
                  error_store := es;
                  index_to_error_id := i2e;
                  _loaded := true |})
          end
      end
  end.

(** [RAGIndexLoader.reload_index] *)
Definition reload_index (self : RAGIndexLoader) (db : db_result)
  : (exn + snapshot) * RAGIndexLoader :=
  load_index
    {| model_name := model_name self;
       embedding_dim := embedding_dim self;
       index := None;
       error_store := ∅;
       index_to_error_id := ∅;
       _loaded := false |}
    db.

End Loader.

(** ** The service: [services/rag/main.py] *)

Inductive HTTPException :=
| mkHTTPException (status_code : Z) (detail : string).

Definition max_wait_time : Z := 600.
Definition wait_interval : Z := 5.

(** Which [return] of [load_index_background] was taken. *)
Inductive bg_exit :=
| ExitNoDatabaseUrl      (* line 71 *)
| ExitLoaded             (* line 89 *)
| ExitFailed (e : exn)   (* line 100 *)
| ExitTimedOut.          (* the loop condition failed, lines 125-126 *)

(** [/health] *)
Inductive health :=
| Unhealthy (reason : string)
| Healthy (index_size : nat).

Inductive ready := Ready (index_size : nat).

Record ErrorSection := {
  description : option string;
  symptoms : option string;
  resolution : option string;
  code : option string;
  benefits : option string
}.

(** [page] is kept in the textual form the metadata holds. *)
Record ErrorResult := {
  res_error_id : string;
  res_error_title : string;
  similarity_score : Q;
  source_file : option string;
  page : option string;
  sections : ErrorSection
}.

Definition Qltb (x y : Q) : bool := negb (Qle_bool y x).

(** Inner product of two vectors, as a fraction in lowest terms. *)
Definition dot (u v : list Q) : Q :=
  Qred (foldr Qplus 0%Q (zip_with Qmult u v)).

(** [-FLT_MAX], the distance FAISS reports in the slots it could not
    fill. *)
Definition neg_FLT_MAX : Q := inject_Z (- (2 ^ 128 - 2 ^ 104)).

(** The order in which candidates are reported: higher score first, and
    the smaller ordinal first among equal scores. *)
Definition before (a b : Z * Q) : bool :=
  Qltb (snd b) (snd a) || (Qeq_bool (snd a) (snd b) && (fst a <? fst b)).

Fixpoint insert_cand (c : Z * Q) (l : list (Z * Q)) : list (Z * Q) :=
  match l with
  | [] => [c]
  | x :: l' => if before c x then c :: x :: l' else x :: insert_cand c l'
  end.

Definition sort_cands (l : list (Z * Q)) : list (Z * Q) :=
  foldr insert_cand [] l.

(** Every row of the index with its ordinal and its score for [q]. *)
Definition scored_rows (ix : IndexFlatIP) (q : list Q) : list (Z * Q) :=
  imap (fun i v => (Z.of_nat i, dot q v)) (faiss_xb ix).

(** Modelled from the spec: [faiss.IndexFlatIP.search] is library code.
    It computes the inner product of the query with every stored row and
    reports the [k] best candidates by descending score, ties broken by
    ascending ordinal; the slots it cannot fill carry the label [-1].  A
    query of another dimension is refused.  The result is the pair
    [(similarities[0], indices[0])]. *)
Definition IndexFlatIP_search (ix : IndexFlatIP) (q : list Q) (k : nat)
  : exn + (list Q * list Z) :=
  if negb (Z.of_nat (length q) =? faiss_d ix) then
    inl (AssertionError "assert d == self.d")
  else
    let top := take k (sort_cands (scored_rows ix q)) in
    let filled := top ++ replicate (k - length top) (-1, neg_FLT_MAX) in
    inr (snd <$> filled, fst <$> filled).

Definition mk_result (eid : string) (error_data : payload) (similarity : Q)
  : ErrorResult :=
  {| res_error_id := eid;
     res_error_title := pl_error_title error_data;
     similarity_score := similarity;
     source_file := pl_metadata error_data !! "source_file";
     page := pl_metadata error_data !! "page";
     sections :=
       {| description := pl_sections error_data !! "description";
          symptoms := pl_sections error_data !! "symptoms";
          resolution := pl_sections error_data !! "resolution";
          code := pl_sections error_data !! "code";
          benefits := pl_sections error_data !! "benefits" |} |}.

(** Lines 223-252: [for idx, similarity in zip(indices, similarities)]. *)
Fixpoint collect_results (self : RAGIndexLoader) (threshold : Q)
    (pairs : list (Z * Q)) (results : list ErrorResult)
  : exn + list ErrorResult :=
  match pairs with
  | [] => inr results
  | (idx, similarity) :: rest =>
      if idx =? -1 then collect_results self threshold rest results
      else if Qltb similarity threshold then
        collect_results self threshold rest results
      else
        match index_to_error_id self !! idx with
        | None => inl (KeyError (str_Z idx))
        | Some eid =>
            match error_store self !! eid with
            | None => inl (KeyError eid)
            | Some error_data =>
                collect_results self threshold rest
                  (results ++ [mk_result eid error_data similarity])
            end
        end
  end.

(** Lines 214-255 of [query_rag]: the search proper, from the normalised
    query embedding to the truncated result list. *)
Definition search (self : RAGIndexLoader) (ix : IndexFlatIP)
    (query_embedding : list Q) (top_k top_n : nat) (threshold : Q)
  : exn + list ErrorResult :=
  found <-! IndexFlatIP_search ix query_embedding top_k;
  let '(similarities, indices) := found in
  results <-! collect_results self threshold (zip indices similarities) [];
  inr (take top_n results).

(** [query_rag], given the embedding the provider returned, already
    normalised (lines 165-168 and 214-272). *)
Definition query_rag (index_loader : option RAGIndexLoader)
    (query_embedding : list Q) (top_k top_n : nat) (threshold : Q)
  : HTTPException + list ErrorResult :=
  match index_loader with
  | None =>
      inl (mkHTTPException 503 "RAG index not loaded. Service is not ready.")
  | Some self =>
      match index self with
      | None =>
          inl (mkHTTPException 503
                 "RAG index not loaded. Service is not ready.")
      | Some ix =>
          match search self ix query_embedding top_k top_n threshold with
          | inr results => inr results
          | inl e =>
              inl (mkHTTPException 500
                     ("Error processing query: " +:+ str_exn e))
          end
      end
  end.

(** [/health] *)
Definition health_check (index_loader : option RAGIndexLoader) : health :=
  match index_loader with
  | None => Unhealthy "Index not loaded"
  | Some self =>
      match index self with
      | None => Unhealthy "Index not loaded"
      | Some ix => Healthy (ntotal ix)
      end
  end.

(** [/ready] *)
Definition readiness_check (index_loader : option RAGIndexLoader)
  : HTTPException + ready :=
  match index_loader with
  | None => inl (mkHTTPException 503 "Index not loaded")
  | Some self =>
      match index self with
      | None => inl (mkHTTPException 503 "Index not loaded")
      | Some ix => inr (Ready (ntotal ix))
      end
  end.

Section Service.

Variable json_loads : string -> option pyvalue.
Variable literal_eval : string -> option pyvalue.

(** The [while elapsed < max_wait_time] loop of [load_index_background].
    [storage t] is what the query yields after [t] seconds of sleeping.
    The three branches of the [except Exception] handler print different
    messages and otherwise do the same.  [None]: the fuel ran out. *)
Fixpoint poll_loop (fuel : nat) (storage : Z -> db_result) (elapsed : Z)
    (self : RAGIndexLoader) : option (bg_exit * RAGIndexLoader) :=
  if elapsed <? max_wait_time then
    match fuel with
    | O => None
    | S fuel' =>
        match load_index json_loads literal_eval self (storage elapsed) with
        | (inr _, self') => Some (ExitLoaded, self')
        | (inl (ValueError msg), self') =>
            if contains "No embeddings found" msg then
              poll_loop fuel' storage (elapsed + wait_interval) self'
            else Some (ExitFailed (ValueError msg), self')
        | (inl _, self') =>
            poll_loop fuel' storage (elapsed + wait_interval) self'
        end
    end
  else Some (ExitTimedOut, self).

(** [load_index_background] for a URL from which line 76 constructs the
    loader: the environment variables [DATABASE_URL] and [RAG_MODEL_NAME],
    the global [index_loader] before the call; returns the exit taken and
    the global after it.  The call with a constructor that may raise is
    [load_index_background_task] below. *)
Definition load_index_background (fuel : nat)
    (database_url rag_model_name : option string)
    (storage : Z -> db_result) (index_loader : option RAGIndexLoader)
  : option (bg_exit * option RAGIndexLoader) :=
  match database_url with
  | None | Some EmptyString => Some (ExitNoDatabaseUrl, index_loader)
  | Some _ =>
      let model := default "nomic-ai/nomic-embed-text-v1.5" rag_model_name in
      '(exit, self) ← poll_loop fuel storage 0 (RAGIndexLoader_init model);
      Some (exit, Some self)
  end.

(** [POST /rag/reload]: the response (the new index size) or the HTTP
    error, and the global [index_loader] afterwards. *)
Definition reload_index_endpoint (index_loader : option RAGIndexLoader)
    (db : db_result) : (HTTPException + nat) * option RAGIndexLoader :=
  match index_loader with
  | None => (inl (mkHTTPException 503 "Index loader not initialized"), None)
  | Some self =>
      match reload_index json_loads literal_eval self db with
      | (inr _, self') =>
          (inr (from_option ntotal 0%nat (index self')), Some self')
      | (inl e, self') =>
          (inl (mkHTTPException 500
                  ("Error reloading index: " +:+ str_exn e)), Some self')
      end
  end.

End Service.

(** ** The initialization pipeline: [backend_init_pipeline.py] *)

(** The exceptions [main] distinguishes.  [CancelledError] derives from
    [BaseException]; [PipelineError] stands for every other [Exception]. *)
Inductive pexn :=
| TimeoutError (msg : string)
| RuntimeError (msg : string)
| CancelledError
| PipelineError (msg : string).

(** [isinstance(e, Exception)] *)
Definition is_Exception (e : pexn) : bool :=
  match e with CancelledError => false | _ => true end.

(** [isinstance(e, (TimeoutError, RuntimeError))] *)
Definition is_Timeout_or_Runtime (e : pexn) : bool :=
  match e with TimeoutError _ | RuntimeError _ => true | _ => false end.

(** [isinstance(e, asyncio.CancelledError)] *)
Definition is_CancelledError (e : pexn) : bool :=
  match e with CancelledError => true | _ => false end.

(** What one run of [main] does, in program order. *)
Inductive event :=
| MonitorCreated          (* line 45 returned a task *)
| SetupDataDirectories    (* line 54 returned *)
| JobWaitCreated          (* line 64 *)
| PrepareCompleted        (* line 72 returned *)
| JobWaitSucceeded        (* line 82 returned *)
| RagServiceReady         (* line 91 returned *)
| ProcessInvoked          (* line 100 called *)
| ProcessCompleted        (* line 100 returned *)
| MonitorCancel           (* line 109 *)
| MonitorAwaited.         (* line 111: the monitor task has finished *)

Global Instance event_eq_dec : EqDecision event.
Proof. solve_decision. Defined.

(** The collaborators of one run, each given by its outcome.  [P] is the
    triple [training_pipeline_prepare] returns. *)
Record world (P : Type) := {
  create_monitor_task : pexn + unit;
  setup_data_directories : pexn + unit;
  training_pipeline_prepare : pexn + P;
  (** the outcome of [await rag_job_wait_task] *)
  rag_job_wait : pexn + unit;
  wait_for_rag_service : pexn + unit;
  training_pipeline_process : P -> pexn + unit;
  (** the outcome of [await monitor_task] after [cancel()] *)
  await_monitor : pexn + unit
}.

Arguments create_monitor_task {P}.
Arguments setup_data_directories {P}.
Arguments training_pipeline_prepare {P}.
Arguments rag_job_wait {P}.
Arguments wait_for_rag_service {P}.
Arguments training_pipeline_process {P}.
Arguments await_monitor {P}.

(** Computations that extend a trace and may raise. *)
Definition M (A : Type) : Type := list event -> list event * (pexn + A).

Global Instance M_ret : MRet M := fun A a tr => (tr, inr a).

Global Instance M_bind : MBind M := fun A B k m tr =>
  match m tr with
  | (tr', inl e) => (tr', inl e)
  | (tr', inr a) => k a tr'
  end.

Definition emit (e : event) : M unit := fun tr => (tr ++ [e], inr ()).

Definition raise {A} (e : pexn) : M A := fun tr => (tr, inl e).

(** Calling a collaborator. *)
Definition call {A} (r : pexn + A) : M A := fun tr => (tr, r).

(** [try: body  except <classes>: handler] *)
Definition try_except {A} (body : M A) (classes : pexn -> bool)
    (handler : pexn -> M A) : M A := fun tr =>
  match body tr with
  | (tr', inl e) => if classes e then handler e tr' else (tr', inl e)
  | r => r
  end.

(** [try: body  finally: cleanup]: an exception raised by the cleanup
    replaces the outcome of the body. *)
Definition try_finally {A} (body : M A) (cleanup : M unit) : M A := fun tr =>
  match body tr with
  | (tr', r) =>
      match cleanup tr' with
      | (tr'', inl e) => (tr'', inl e)
      | (tr'', inr _) => (tr'', r)
      end
  end.

Section Main.

Context {P : Type}.
Variable w : world P.

(** Lines 43-50: [false] when the task could not be created
    ([monitor_task] stays [None]). *)
Definition start_monitor : M bool :=
  try_except
    (call (create_monitor_task w);; emit MonitorCreated;; mret true)
    is_Exception
    (fun _ => mret false).

(** Lines 53-104: the body of the [try]. *)
Definition main_try : M unit :=
  call (setup_data_directories w);;
  emit SetupDataDirectories;;
  emit JobWaitCreated;;
  prepared ← call (training_pipeline_prepare w);
  emit PrepareCompleted;;
  try_except (call (rag_job_wait w)) is_Timeout_or_Runtime (fun e => raise e);;
  emit JobWaitSucceeded;;
  call (wait_for_rag_service w);;
  emit RagServiceReady;;
  emit ProcessInvoked;;
  call (training_pipeline_process w prepared);;
  emit ProcessCompleted.

(** Lines 106-113: the [finally] block. *)
Definition main_finally (monitor_task : bool) : M unit :=
  if monitor_task then
    emit MonitorCancel;;
    try_except
      (emit MonitorAwaited;; call (await_monitor w))
      is_CancelledError
      (fun _ => mret ())
  else mret ().

(** [main] *)
Definition main : M unit :=
  monitor_task ← start_monitor;
  try_finally main_try (main_finally monitor_task).

End Main.

(** Every [b] in the trace has an [a] before it. *)
Fixpoint only_after (a b : event) (tr : list event) : bool :=
  match tr with
  | [] => true
  | e :: tr' =>
      if decide (e = a) then true
      else if decide (e = b) then false
      else only_after a b tr'
  end.

(** ** Notions the properties are stated with *)

(** [self._loaded and self.index is not None]: the test of line 57. *)
Definition is_cached (self : RAGIndexLoader) : bool :=
  _loaded self && bool_decide (is_Some (index self)).

(** The state [reload_index] puts [self] in before it rebuilds. *)
Definition cleared (self : RAGIndexLoader) : RAGIndexLoader :=
  {| model_name := model_name self;
     embedding_dim := embedding_dim self;
     index := None;
     error_store := ∅;
     index_to_error_id := ∅;
     _loaded := false |}.

(** Unit L2 norm, on the square. *)
Definition unit_norm (v : list Q) : Prop := (dot v v == 1)%Q.

(** [a] is not reported after [b]. *)
Definition not_after (a b : Z * Q) : Prop := before b a = false.

(** The number of rows reported before the candidate [c]: those with a
    higher score for [q], and those with the same score and a smaller
    ordinal. *)
Definition rank (ix : IndexFlatIP) (q : list Q) (c : Z * Q) : nat :=
  length (filter (fun c' => before c' c = true) (scored_rows ix q)).

(** The candidates the result loop keeps (lines 225-229). *)
Definition kept (threshold : Q) (c : Z * Q) : Prop :=
  fst c <> -1 /\ Qltb (snd c) threshold = false.

Global Instance kept_dec threshold c : Decision (kept threshold c).
Proof. unfold kept. apply _. Defined.

(** [r] is the result built for the candidate [c] (lines 231-251). *)
Definition is_result_of (self : RAGIndexLoader) (c : Z * Q)
    (r : ErrorResult) : Prop :=
  exists eid error_data,
    index_to_error_id self !! fst c = Some eid /\
    error_store self !! eid = Some error_data /\
    r = mk_result eid error_data (snd c).

(** The loader serves the index [ix], and both dictionaries answer for
    each of its ordinals. *)
Definition serves (self : RAGIndexLoader) (ix : IndexFlatIP) : Prop :=
  index self = Some ix /\
  faiss_d ix = embedding_dim self /\
  forall i : nat,
    (i < ntotal ix)%nat ->
    exists eid error_data,
      index_to_error_id self !! Z.of_nat i = Some eid /\
      error_store self !! eid = Some error_data.

(** Scores do not increase along the list. *)
Definition scores_descending (results : list ErrorResult) : Prop :=
  forall i j r1 r2,
    (i < j)%nat -> results !! i = Some r1 -> results !! j = Some r2 ->
    (similarity_score r2 <= similarity_score r1)%Q.

(** ** Concrete collaborators and rows, to run the model on *)

Fixpoint split_on (sep : Ascii.ascii) (s : string) : list string :=
  match s with
  | EmptyString => [EmptyString]
  | String c s' =>
      if Ascii.eqb c sep then EmptyString :: split_on sep s'
      else match split_on sep s' with
           | [] => [String c EmptyString]
           | t :: ts => String c t :: ts
           end
  end.

Definition parse_digits (s : string) : option Z :=
  match s with
  | EmptyString => None
  | _ => (fun u => Z.of_N (N.of_uint u)) <$> NilEmpty.uint_of_string s
  end.

(** [-]digits[.digits] *)
Definition parse_number (tok : string) : option Q :=
  let '(sign, body) :=
    match tok with
    | String "-"%char r => (-1, r)
    | _ => (1, tok)
    end in
  match split_on "."%char body with
  | [i] => n ← parse_digits i; Some (inject_Z (sign * n))
  | [i; f] =>
      _ ← parse_digits i;
      _ ← parse_digits f;
      n ← parse_digits (i +:+ f);
      Some (Qmake (sign * n) (Pos.pow 10 (Pos.of_nat (String.length f))))
  | _ => None
  end.

(** Without the blanks at its ends. *)
Fixpoint ltrim (s : string) : string :=
  match s with
  | String " "%char r => ltrim r
  | _ => s
  end.

Fixpoint rtrim (s : string) : string :=
  match s with
  | EmptyString => EmptyString
  | String c r =>
      match rtrim r with
      | EmptyString =>
          if Ascii.eqb c " " then EmptyString else String c EmptyString
      | r' => String c r'
      end
  end.

Definition trim (s : string) : string := ltrim (rtrim s).

(** The text pgvector sends, [[x1,x2,...]], and the same with blanks
    around the numbers. *)
Definition parse_vector_text (s : string) : option (list Q) :=
  match trim s with
  | String "["%char rest =>
      match split_on "]"%char rest with
      | [body; EmptyString] =>
          match trim body with
          | EmptyString => Some []
          | _ => mapM (fun tok => parse_number (trim tok))
                      (split_on ","%char body)
          end
      | _ => None
      end
  | _ => None
  end.

(** The instance of [json.loads] and of [ast.literal_eval] the examples
    run with: it reads the text pgvector sends, a bare number and
    [null]. *)
Definition parse_value_text (s : string) : option pyvalue :=
  match parse_vector_text s with
  | Some v => Some (PyNumbers v)
  | None =>
      if String.eqb (trim s) "null" then Some PyScalar
      else match parse_number (trim s) with
           | Some _ => Some PyScalar
           | None => None
           end
  end.

(** The [i]-th vector of the standard basis of dimension 768. *)
Definition basis (i : nat) : list Q :=
  replicate i 0%Q ++ [1%Q] ++ replicate (767 - i) 0%Q.

Definition example_row (eid : string) (v : list Q) (dim : Z) : db_row :=
  {| error_id := eid;
     embedding := EmbArray v;
     error_title := "title of " +:+ eid;
     error_metadata := None;
     model_name_db := "nomic-ai/nomic-embed-text-v1.5";
     embedding_dim_db := dim |}.

Definition fresh_loader : RAGIndexLoader :=
  RAGIndexLoader_init "nomic-ai/nomic-embed-text-v1.5".

(** Two valid rows, [A] on the first axis and [B] on the second. *)
Definition rows_AB : list db_row :=
  [example_row "A" (basis 0) 768; example_row "B" (basis 1) 768].

(** The loader after it has loaded [rows_AB]. *)
Definition loader_AB : RAGIndexLoader :=
  snd (load_index parse_value_text parse_value_text fresh_loader
         (DbRows rows_AB)).

(** The query [0.9, 0.1, 0, ...], left unnormalised. *)
Definition query_9_1 : list Q :=
  [9 # 10; 1 # 10]%Q ++ replicate 766 0%Q.

(** The index [loader_AB] holds. *)
Definition index_AB : IndexFlatIP :=
  {| faiss_d := 768; faiss_xb := [basis 0; basis 1] |}.

(** A row whose declared dimension is 512. *)
Definition row_dim_512 : db_row := example_row "C" (basis 2) 512.

(** One row of the wrong declared dimension between two valid rows. *)
Definition rows_A_512_B : list db_row :=
  [example_row "A" (basis 0) 768; row_dim_512; example_row "B" (basis 1) 768].

(** A row in the textual encoding whose vector has two components. *)
Definition row_text_short : db_row :=
  {| error_id := "D";
     embedding := EmbStr "[0.5,-1]";
     error_title := "title of D";
     error_metadata := None;
     model_name_db := "nomic-ai/nomic-embed-text-v1.5";
     embedding_dim_db := 768 |}.

(** Two rows under the same key. *)
Definition rows_same_key : list db_row :=
  [example_row "A" (basis 0) 768; example_row "A" (basis 1) 768].

(** A storage with no rows at any time. *)
Definition storage_empty : Z -> db_result := fun _ => DbRows [].

(** A storage whose table is missing for the first ten seconds and holds
    [rows_AB] from then on. *)
Definition storage_after_10 : Z -> db_result := fun t =>
  if t <? 10 then DbRaise (OtherException "relation ragembedding does not exist")
  else DbRows rows_AB.

(** A valid row whose vector has norm 2. *)
Definition row_norm_2 : db_row :=
  example_row "A" ([2%Q] ++ replicate 767 0%Q) 768.

(** A run in which every collaborator succeeds and the monitor ends by
    its cancellation. *)
Definition world_ok : world nat :=
  {| create_monitor_task := inr ();
     setup_data_directories := inr ();
     training_pipeline_prepare := inr 3%nat;
     rag_job_wait := inr ();
     wait_for_rag_service := inr ();
     training_pipeline_process := fun _ => inr ();
     await_monitor := inl CancelledError |}.

(** A run in which the preparation completes and the job-wait times
    out. *)
Definition world_job_timeout : world nat :=
  {| create_monitor_task := inr ();
     setup_data_directories := inr ();
     training_pipeline_prepare := inr 3%nat;
     rag_job_wait := inl (TimeoutError "job did not complete");
     wait_for_rag_service := inr ();
     training_pipeline_process := fun _ => inr ();
     await_monitor := inl CancelledError |}.

(** A storage that is down. *)
Definition db_down : db_result :=
  DbRaise (OtherException "connection refused").

(** ** The rest of the loader and of the service *)

(** [s.replace(old, new)] for a non-empty [old]: the occurrences of [old]
    are replaced from the left, without overlap.  [skip] counts the
    characters of a matched occurrence still to be passed over. *)
Fixpoint replace_from (skip : nat) (old new s : string) : string :=
  match s with
  | EmptyString => EmptyString
  | String c s' =>
      match skip with
      | S k => replace_from k old new s'
      | O =>
          if String.prefix old s
          then new +:+ replace_from (String.length old - 1) old new s'
          else String c (replace_from 0 old new s')
      end
  end.

Definition str_replace (old new s : string) : string :=
  replace_from 0 old new s.

(** The URL [RAGIndexLoader.__init__] (lines 32-34) and
    [src/alm/database.py] (lines 16-20) hand to [create_async_engine]. *)
Definition normalize_database_url (database_url : string) : string :=
  str_replace "postgresql" "postgresql+asyncpg"
    (str_replace "+asyncpg" "" database_url).

(** The character [c] occurs in [s]. *)
Fixpoint has_char (c : Ascii.ascii) (s : string) : bool :=
  match s with
  | EmptyString => false
  | String a s' => Ascii.eqb a c || has_char c s'
  end.

(** The dictionary stored under the key of [row] (lines 148-153). *)
Definition payload_of (row : db_row) : payload :=
  let md := default {| md_sections := None; md_metadata := None |}
                    (error_metadata row) in
  {| pl_error_id := error_id row;
     pl_error_title := error_title row;
     pl_sections := default ∅ (md_sections md);
     pl_metadata := default ∅ (md_metadata md) |}.

(** The exceptions after which the polling loop sleeps and polls again
    (lines 90-97 and 101-122). *)
Definition retried (e : exn) : bool :=
  match e with
  | ValueError msg => contains "No embeddings found" msg
  | _ => true
  end.

(** What the storage yields makes the poll fail in a way that is
    retried: no rows, or a retried exception of the driver. *)
Definition retried_result (db : db_result) : Prop :=
  db = DbRows [] \/ exists e, db = DbRaise e /\ retried e = true.

(** The body of the result loop for one candidate (lines 225-252):
    [None] when the candidate is skipped. *)
Definition result_for (self : RAGIndexLoader) (threshold : Q) (c : Z * Q)
  : exn + option ErrorResult :=
  if fst c =? -1 then inr None
  else if Qltb (snd c) threshold then inr None
  else
    match index_to_error_id self !! fst c with
    | None => inl (KeyError (str_Z (fst c)))
    | Some eid =>
        match error_store self !! eid with
        | None => inl (KeyError eid)
        | Some error_data => inr (Some (mk_result eid error_data (snd c)))
        end
    end.

(** What the index reports for the query [q] and the budget [k]: the
    candidates in order, then the unfilled slots (the list the result loop
    of [query_rag] runs over). *)
Definition reported (ix : IndexFlatIP) (q : list Q) (k : nat)
  : list (Z * Q) :=
  take k (sort_cands (scored_rows ix q))
  ++ replicate (k - length (take k (sort_cands (scored_rows ix q))))
       (-1, neg_FLT_MAX).

(** ** The background task, with the constructor of the loader *)

Section BackgroundTask.

Variable json_loads : string -> option pyvalue.
Variable literal_eval : string -> option pyvalue.

(** [create_async_engine] of SQLAlchemy, by the exception it raises for a
    URL, if any (a dialect or a driver it cannot load, a URL it cannot
    parse). *)
Variable create_async_engine : string -> option exn.

(** [RAGIndexLoader(database_url=..., model_name=...)], lines 32-46: the
    engine is created from the rewritten URL at line 38, and what
    [create_async_engine] raises leaves the constructor. *)
Definition RAGIndexLoader_new (database_url model : string)
  : exn + RAGIndexLoader :=
  match create_async_engine (normalize_database_url database_url) with
  | Some e => inl e
  | None => inr (RAGIndexLoader_init model)
  end.

(** [load_index_background] as the task of [startup_event] runs it
    (lines 64-126).  The constructor of line 76 is called outside the
    [try]: the exception it raises ends the task before the loop is
    entered and before the global is assigned.  Returns the exception that
    ended the task or the exit taken, and the global afterwards. *)
Definition load_index_background_task (fuel : nat)
    (database_url rag_model_name : option string)
    (storage : Z -> db_result) (index_loader : option RAGIndexLoader)
  : option ((exn + bg_exit) * option RAGIndexLoader) :=
  match database_url with
  | None | Some EmptyString => Some (inr ExitNoDatabaseUrl, index_loader)
  | Some url =>
      let model := default "nomic-ai/nomic-embed-text-v1.5" rag_model_name in
      match RAGIndexLoader_new url model with
      | inl e => Some (inl e, index_loader)
      | inr self0 =>
          '(exit, self) ← poll_loop json_loads literal_eval fuel storage 0
                            self0;
          Some (inr exit, Some self)
      end
  end.

End BackgroundTask.

(** An engine factory that knows one dialect: the instance the examples
    run with. *)
Definition engine_for_postgresql (url : string) : option exn :=
  if String.prefix "postgresql+asyncpg://" url then None
  else Some (OtherException "Can't load plugin: sqlalchemy.dialects")%string.

(** ** The query, with the scores and the comparison in [float32] *)

(** The rational a finite float denotes. *)
Definition float_value (x : SpecFloat.spec_float) : Q :=
  match x with
  | SpecFloat.S754_finite s m e =>
      Qred ((if s then -1 else 1) * inject_Z (Z.pos m) * Qpower 2 e)
  | _ => 0%Q
  end.

(** [np.float32(x)] for a Python [float]: the nearest number with 24 bits
    of precision, ties to even (IEEE 754 binary32). *)
Definition float32_of_float (x : SpecFloat.spec_float)
  : SpecFloat.spec_float :=
  match x with
  | SpecFloat.S754_finite s m e =>
      SpecFloat.binary_normalize 24 128 (if s then Z.neg m else Z.pos m) e s
  | _ => x
  end.

(** [similarity < request.similarity_threshold] (line 228) for a
    [np.float32] and a Python [float], as NumPy 2 evaluates it: the Python
    scalar takes the type of the NumPy scalar and the comparison is made
    in [float32]. *)
Definition float32_lt_float (similarity : Q)
    (threshold : SpecFloat.spec_float) : bool :=
  Qltb similarity (float_value (float32_of_float threshold)).

(** A [similarity_threshold] that passed the validation of
    [QueryRequest]: a Python [float] (IEEE 754 binary64) between 0 and
    1. *)
Definition is_threshold (t : SpecFloat.spec_float) : bool :=
  SpecFloat.valid_binary 53 1024 t &&
  match t with
  | SpecFloat.S754_zero _ => true
  | SpecFloat.S754_finite false _ _ => Qle_bool (float_value t) 1
  | _ => false
  end.

(** The FAISS library: the inner product of the query with a stored row as
    FAISS computes it in [float32], and [index.search(x, k)] for one
    query, which returns [(similarities[0], indices[0])]. *)
Record faiss_library := {
  fvec_inner_product : list Q -> list Q -> Q;
  faiss_search : IndexFlatIP -> list Q -> nat -> exn + (list Q * list Z)
}.

(** The score of the row of ordinal [i]. *)
Definition row_score (F : faiss_library) (ix : IndexFlatIP) (q : list Q)
    (i : nat) : Q :=
  from_option (fvec_inner_product F q) 0%Q (faiss_xb ix !! i).

(** [found] reports the rows [hits], best first: each with its score and
    its ordinal as label, then the slots that could not be filled, with
    the label [-1].  The rows reported are the [k] rows of highest score,
    or all rows when the index holds fewer; the order among rows of equal
    score is left to the library. *)
Definition reports (F : faiss_library) (ix : IndexFlatIP) (q : list Q)
    (k : nat) (hits : list nat) (found : list Q * list Z) : Prop :=
  exists pad : list Q,
    found = ((row_score F ix q <$> hits) ++ pad,
             (Z.of_nat <$> hits) ++ replicate (length pad) (-1)) /\
    (length hits + length pad = k)%nat /\
    length hits = (k `min` ntotal ix)%nat /\
    NoDup hits /\
    Forall (fun i => (i < ntotal ix)%nat) hits /\
    StronglySorted
      (fun i j => (row_score F ix q j <= row_score F ix q i)%Q) hits /\
    (forall i j,
       (i < ntotal ix)%nat -> i ∉ hits -> j ∈ hits ->
       (row_score F ix q i <= row_score F ix q j)%Q).

(** What the service relies on from [IndexFlatIP.search]. *)
Definition faiss_contract (F : faiss_library) : Prop :=
  forall ix q k,
    (Z.of_nat (length q) = faiss_d ix ->
     exists hits found,
       faiss_search F ix q k = inr found /\ reports F ix q k hits found) /\
    (Z.of_nat (length q) <> faiss_d ix ->
     exists e, faiss_search F ix q k = inl e).

(** The payload the result loop finds for the ordinal [i] (lines
    231-232). *)
Definition candidate_payload (self : RAGIndexLoader) (i : nat)
  : option payload :=
  index_to_error_id self !! Z.of_nat i ≫= fun eid => error_store self !! eid.

Module F32.

Section Query.

Variable F : faiss_library.

(** The constructors [ErrorSection(...)] and [ErrorResult(...)] of lines
    238-251, by the exception pydantic raises for the fields taken from a
    payload, if any: a title that is missing, a [page] that is no integer,
    a section that is no text. *)
Variable validation_error : payload -> option exn.

(** [np.linalg.norm] and the division of a component by the norm, both
    in [float32]. *)
Variable linalg_norm : list Q -> Q.
Variable float32_div : Q -> Q -> Q.

(** Lines 231-251. *)
Definition new_result (eid : string) (error_data : payload) (similarity : Q)
  : exn + ErrorResult :=
  match validation_error error_data with
  | Some e => inl e
  | None => inr (mk_result eid error_data similarity)
  end.

(** Lines 223-252: [for idx, similarity in zip(indices, similarities)]. *)
Fixpoint collect_results (self : RAGIndexLoader)
    (threshold : SpecFloat.spec_float) (pairs : list (Z * Q))
    (results : list ErrorResult) : exn + list ErrorResult :=
  match pairs with
  | [] => inr results
  | (idx, similarity) :: rest =>
      if idx =? -1 then collect_results self threshold rest results
      else if float32_lt_float similarity threshold then
        collect_results self threshold rest results
      else
        match index_to_error_id self !! idx with
        | None => inl (KeyError (str_Z idx))
        | Some eid =>
            match error_store self !! eid with
            | None => inl (KeyError eid)
            | Some error_data =>
                result <-! new_result eid error_data similarity;
                collect_results self threshold rest (results ++ [result])
            end
        end
  end.

(** Lines 214-255: from the normalised query embedding to the truncated
    result list. *)
Definition search (self : RAGIndexLoader) (ix : IndexFlatIP)
    (query_embedding : list Q) (top_k top_n : nat)
    (threshold : SpecFloat.spec_float) : exn + list ErrorResult :=
  found <-! faiss_search F ix query_embedding top_k;
  let '(similarities, indices) := found in
  results <-! collect_results self threshold (zip indices similarities) [];
  inr (take top_n results).

(** Lines 209-212. *)
Definition normalize (query_embedding : list Q) : list Q :=
  let norm := linalg_norm query_embedding in
  if Qltb 0 norm
  then (fun x => float32_div x norm) <$> query_embedding
  else query_embedding.

(** [query_rag], given the embedding the provider returned (lines 165-168
    and 209-272). *)
Definition query_rag (index_loader : option RAGIndexLoader)
    (query_embedding : list Q) (top_k top_n : nat)
    (threshold : SpecFloat.spec_float) : HTTPException + list ErrorResult :=
  match index_loader with
  | None =>
      inl (mkHTTPException 503 "RAG index not loaded. Service is not ready.")
  | Some self =>
      match index self with
      | None =>
          inl (mkHTTPException 503
                 "RAG index not loaded. Service is not ready.")
      | Some ix =>
          match search self ix (normalize query_embedding) top_k top_n
                  threshold with
          | inr results => inr results
          | inl e =>
              inl (mkHTTPException 500
                     ("Error processing query: " +:+ str_exn e))
          end
      end
  end.

End Query.

(** The candidates the result loop keeps (lines 225-229). *)
Definition kept (threshold : SpecFloat.spec_float) (c : Z * Q) : Prop :=
  fst c <> -1 /\ float32_lt_float (snd c) threshold = false.

Global Instance kept_dec threshold c : Decision (kept threshold c).
Proof. unfold kept. apply _. Defined.

End F32.

(** Instances to run the model on: the search of [IndexFlatIP_search] with
    exact inner products; a validation that refuses a [page] that is not
    written in digits, and one that refuses nothing; a norm that is exact
    to 23 binary digits and an exact division. *)
Definition faiss_exact : faiss_library :=
  {| fvec_inner_product := dot; faiss_search := IndexFlatIP_search |}.

Definition page_is_integer (error_data : payload) : option exn :=
  match pl_metadata error_data !! "page" with
  | None => None
  | Some text =>
      match parse_digits text with
      | Some _ => None
      | None =>
          Some (ValueError "1 validation error for ErrorResult: page")
      end
  end.

Definition always_valid (error_data : payload) : option exn := None.

Definition norm_23_digits (v : list Q) : Q :=
  let square := dot v v in
  Qred (Z.sqrt (Qnum square * 2 ^ 46 / Z.pos (Qden square)) # 2 ^ 23).

Definition exact_div (x y : Q) : Q := Qred (x / y).

(** The Python floats 0.7, 0.5 and 1e-46. *)
Definition float_0_7 : SpecFloat.spec_float :=
  SpecFloat.S754_finite false 6305039478318694 (-53).

Definition float_0_5 : SpecFloat.spec_float :=
  SpecFloat.S754_finite false 4503599627370496 (-53).

Definition float_1e_46 : SpecFloat.spec_float :=
  SpecFloat.S754_finite false 5142201741628769 (-205).

(** The Python float 1.0. *)
Definition float_1 : SpecFloat.spec_float :=
  SpecFloat.S754_finite false 4503599627370496 (-52).

(** A valid row whose metadata give the page as [iv], and the loader that
    has loaded it. *)
Definition row_page_iv : db_row :=
  {| error_id := "P";
     embedding := EmbArray (basis 0);
     error_title := "title of P";
     error_metadata :=
       Some {| md_sections := None;
               md_metadata := Some {[ "page" := "iv" ]} |};
     model_name_db := "nomic-ai/nomic-embed-text-v1.5";
     embedding_dim_db := 768 |}.

Definition loader_page_iv : RAGIndexLoader :=
  snd (load_index parse_value_text parse_value_text fresh_loader
         (DbRows [row_page_iv])).

(** A query vector of norm 1 up to rounding whose first component is the
    [float32] nearest to 0.7. *)
Definition query_0_7 : list Q :=
  [11744051 # 2 ^ 24; 11981329 # 2 ^ 24]%Q ++ replicate 766 0%Q.

(** ** [src/alm/database.py]: [init_tables] *)

(** The database as [init_tables] sees it: the installed extensions and
    the tables with their rows. *)
Record database (Row : Type) := {
  extensions : gset string;
  tables : gmap string (list Row)
}.

Arguments extensions {Row}.
Arguments tables {Row}.

(** [metadata.drop_all]: drops the tables of the metadata that exist. *)
Definition drop_all {Row} (metadata : list string)
    (t : gmap string (list Row)) : gmap string (list Row) :=
  foldr delete t metadata.

(** [metadata.create_all]: creates, empty, the tables of the metadata that
    do not exist yet. *)
Definition create_all {Row} (metadata : list string)
    (t : gmap string (list Row)) : gmap string (list Row) :=
  foldr (fun name t' =>
           match t' !! name with
           | Some _ => t'
           | None => <[name := []]> t'
           end) t metadata.

(** What the database answers to the statements of one call: the
    exception it raises for a statement, if any. *)
Record ddl_outcomes := {
  create_extension_raises : option exn;
  drop_alert_raises : option exn;
  create_alert_raises : option exn;
  create_rag_raises : option exn
}.

Section InitTables.

Context {Row : Type}.

(** The tables of [GrafanaAlert.metadata] and of [RAGEmbedding.metadata];
    [alm.models] is not part of this development. *)
Variable GrafanaAlert_metadata : list string.
Variable RAGEmbedding_metadata : list string.

(** Lines 27-35: the extension, in a transaction of its own; an exception
    is logged and swallowed. *)
Definition enable_pgvector (o : ddl_outcomes) (db : database Row)
  : database Row :=
  match create_extension_raises o with
  | Some _ => db
  | None => {| extensions := {[ "vector" ]} ∪ extensions db;
               tables := tables db |}
  end.

(** Lines 38-48: the statements of the second transaction.  [engine.begin()]
    commits when the block ends and rolls back when it raises. *)
Definition create_tables (delete_tables : bool) (o : ddl_outcomes)
    (t : gmap string (list Row)) : exn + gmap string (list Row) :=
  t1 <-! (if delete_tables then
            match drop_alert_raises o with
            | Some e => inl e
            | None => inr (drop_all GrafanaAlert_metadata t)
            end
          else inr t);
  t2 <-! match create_alert_raises o with
         | Some e => inl e
         | None => inr (create_all GrafanaAlert_metadata t1)
         end;
  match create_rag_raises o with
  | Some e => inl e
  | None => inr (create_all RAGEmbedding_metadata t2)
  end.

(** [init_tables(delete_tables)]: the exception it raises, if any, and the
    database afterwards. *)
Definition init_tables (delete_tables : bool) (o : ddl_outcomes)
    (db : database Row) : option exn * database Row :=
  let db1 := enable_pgvector o db in
  match create_tables delete_tables o (tables db1) with
  | inl e => (Some e, db1)
  | inr t => (None, {| extensions := extensions db1; tables := t |})
  end.

End InitTables.

(** ** More rows, storages and runs for the examples *)

(** A row of the declared dimension that no decoder reads, under a key
    that holds the text the polling loop looks for. *)
Definition row_marker_key : db_row :=
  {| error_id := "No embeddings found yet";
     embedding := EmbStr "oops";
     error_title := "a title";
     error_metadata := None;
     model_name_db := "nomic-ai/nomic-embed-text-v1.5";
     embedding_dim_db := 768 |}.

(** Rows of the declared dimension whose embedding is the text [null],
    NULL, and a text no decoder reads. *)
Definition row_with_embedding (eid : string) (e : embedding_col) : db_row :=
  {| error_id := eid;
     embedding := e;
     error_title := "title of " +:+ eid;
     error_metadata := None;
     model_name_db := "nomic-ai/nomic-embed-text-v1.5";
     embedding_dim_db := 768 |}.

Definition storage_null_text : Z -> db_result :=
  fun _ => DbRows [row_with_embedding "E" (EmbStr "null")].

Definition storage_null_column : Z -> db_result :=
  fun _ => DbRows [row_with_embedding "E" EmbNull].

Definition storage_unreadable_text : Z -> db_result :=
  fun _ => DbRows [row_with_embedding "E" (EmbStr "oops")].

(** A storage that holds no rows for the first five seconds and
    [rows_AB] from then on. *)
Definition storage_rows_after_5 : Z -> db_result := fun t =>
  if t <? 5 then DbRows [] else DbRows rows_AB.

Definition storage_dim_512 : Z -> db_result :=
  fun _ => DbRows rows_A_512_B.

Definition storage_marker_key : Z -> db_result :=
  fun _ => DbRows [example_row "A" (basis 0) 768; row_marker_key].

(** The answer of [loader_AB] to [query_9_1] with [top_k = 2],
    [top_n = 2] and the threshold 0. *)
Definition results_AB : list ErrorResult :=
  match query_rag (Some loader_AB) query_9_1 2 2 0 with
  | inr results => results
  | inl _ => []
  end.

(** A run in which the monitor task cannot be created. *)
Definition world_no_monitor : world nat :=
  {| create_monitor_task := inl (PipelineError "no running event loop");
     setup_data_directories := inr ();
     training_pipeline_prepare := inr 3%nat;
     rag_job_wait := inr ();
     wait_for_rag_service := inr ();
     training_pipeline_process := fun _ => inr ();
     await_monitor := inl CancelledError |}.

(** A run in which every phase succeeds and the monitor has crashed. *)
Definition world_monitor_crash : world nat :=
  {| create_monitor_task := inr ();
     setup_data_directories := inr ();
     training_pipeline_prepare := inr 3%nat;
     rag_job_wait := inr ();
     wait_for_rag_service := inr ();
     training_pipeline_process := fun _ => inr ();
     await_monitor := inl (RuntimeError "kubernetes API unreachable") |}.

(** A run in which the preparation raises. *)
Definition world_prepare_fails : world nat :=
  {| create_monitor_task := inr ();
     setup_data_directories := inr ();
     training_pipeline_prepare := inl (PipelineError "cannot load alerts");
     rag_job_wait := inr ();
     wait_for_rag_service := inr ();
     training_pipeline_process := fun _ => inr ();
     await_monitor := inl CancelledError |}.

(** A database with two alerts and one embedding, rows being numbers. *)
Definition db_example : database nat :=
  {| extensions := ∅;
     tables := {[ "grafanaalert" := [1; 2]%nat; "ragembedding" := [7]%nat ]} |}.

Definition no_ddl_error : ddl_outcomes :=
  {| create_extension_raises := None;
     drop_alert_raises := None;
     create_alert_raises := None;
     create_rag_raises := None |}.

Section RowNotions.

Variable json_loads : string -> option pyvalue.
Variable literal_eval : string -> option pyvalue.

(** Row [row] passes the three checks of the row loop and decodes to
    [v]. *)
Definition decodes_to (self : RAGIndexLoader) (row : db_row) (v : list Q)
  : Prop :=
  embedding_dim_db row = embedding_dim self /\
  decode_embedding json_loads literal_eval (error_id row) (embedding row)
    = inr v /\
  Z.of_nat (length v) = embedding_dim self.

(** The declared dimension of [row] is not the configured one, or its
    decoded vector has another length. *)
Definition bad_dimension (self : RAGIndexLoader) (row : db_row) : Prop :=
  embedding_dim_db row <> embedding_dim self \/
  exists v,
    decode_embedding json_loads literal_eval (error_id row) (embedding row)
      = inr v /\
    Z.of_nat (length v) <> embedding_dim self.

End RowNotions.

Section ErrorNotions.

Variable json_loads : string -> option pyvalue.
Variable literal_eval : string -> option pyvalue.

(** The exception the row loop raises at [row], if any. *)
Definition row_error (self : RAGIndexLoader) (row : db_row) : option exn :=
  match load_row json_loads literal_eval self 0 row build_acc_empty with
  | inl e => Some e
  | inr _ => None
  end.

(** A poll that finds [db] raises an exception after which the loop
    sleeps and polls again. *)
Definition poll_retried (self : RAGIndexLoader) (db : db_result) : Prop :=
  exists e,
    (load_index json_loads literal_eval self db).1 = inl e /\
    retried e = true.

End ErrorNotions.

(** * Properties *)

(** ** The index loader *)

Section LoaderProperties.

Variable json_loads : string -> option pyvalue.
Variable literal_eval : string -> option pyvalue.

Local Abbreviation decode_embedding := (decode_embedding json_loads literal_eval).
Local Abbreviation load_row := (load_row json_loads literal_eval).
Local Abbreviation load_rows := (load_rows json_loads literal_eval).
Local Abbreviation build_index := (build_index json_loads literal_eval).
Local Abbreviation load_index := (load_index json_loads literal_eval).
Local Abbreviation reload_index := (reload_index json_loads literal_eval).
Local Abbreviation decodes_to := (decodes_to json_loads literal_eval).
Local Abbreviation bad_dimension := (bad_dimension json_loads literal_eval).

Lemma is_cached_false_index_None self :
  index self = None -> is_cached self = false.
Proof.
  intros H. unfold is_cached. rewrite H.
  rewrite bool_decide_eq_false_2; [apply andb_false_r|].
  by intros [? ?].
Qed.

Lemma is_cached_cleared self : is_cached (cleared self) = false.
Proof. reflexivity. Qed.

(** A call that finds the cache answers from it. *)
Lemma load_index_hit self db :
  is_cached self = true ->
  exists ix,
    index self = Some ix /\
    load_index self db
      = (inr (ix, error_store self, index_to_error_id self), self).
Proof.
  unfold is_cached, load_index. intros [Hl Hi]%andb_true_iff.
  apply bool_decide_eq_true_1 in Hi as [ix Hix].
  exists ix. by rewrite Hl, Hix.
Qed.

(** A call that misses the cache reads the storage and builds. *)
Lemma load_index_miss self db :
  is_cached self = false ->
  load_index self db =
    match db with
    | DbRaise e => (inl e, self)
    | DbRows rows =>
        match build_index self rows with
        | inl e => (inl e, self)
        | inr (ix, es, i2e) =>
            (inr (ix, es, i2e),
             {| model_name := model_name self;
                embedding_dim := embedding_dim self;
                index := Some ix;
                error_store := es;
                index_to_error_id := i2e;
                _loaded := true |})
        end
    end.
Proof.
  unfold is_cached, load_index. intros H.
  destruct (_loaded self), (index self); try reflexivity.
  vm_compute in H. discriminate.
Qed.

Lemma reload_index_unfold self db :
  reload_index self db = load_index (cleared self) db.
Proof. reflexivity. Qed.

(** [load_index] assigns to [self] only after a build that raised
    nothing. *)
Lemma load_index_raise_keeps_self self db e self' :
  load_index self db = (inl e, self') -> self' = self.
Proof.
  destruct (is_cached self) eqn:Hc.
  - destruct (load_index_hit self db Hc) as (ix & _ & ->). congruence.
  - rewrite (load_index_miss _ _ Hc).
    destruct db as [rows|e0]; [|congruence].
    destruct (build_index self rows) as [e0|[[ix es] i2e]]; congruence.
Qed.

Lemma load_index_ok_cached self db snap self' :
  load_index self db = (inr snap, self') ->
  is_cached self' = true /\
  index self' = Some (snap.1.1) /\
  error_store self' = snap.1.2 /\
  index_to_error_id self' = snap.2.
Proof.
  destruct (is_cached self) eqn:Hc.
  - destruct (load_index_hit self db Hc) as (ix & Hix & ->).
    intros [= <- <-]. simpl. by rewrite Hc, Hix.
  - rewrite (load_index_miss _ _ Hc).
    destruct db as [rows|e0]; [|congruence].
    destruct (build_index self rows) as [e0|[[ix es] i2e]]; [congruence|].
    intros [= <- <-]. simpl. by repeat split.
Qed.

Lemma load_index_config self db :
  model_name (load_index self db).2 = model_name self /\
  embedding_dim (load_index self db).2 = embedding_dim self.
Proof.
  destruct (is_cached self) eqn:Hc.
  - by destruct (load_index_hit self db Hc) as (ix & _ & ->).
  - rewrite (load_index_miss _ _ Hc).
    destruct db as [rows|e0]; [|done].
    by destruct (build_index self rows) as [e0|[[ix es] i2e]].
Qed.

Lemma cleared_load_index self db :
  cleared (load_index self db).2 = cleared self.
Proof.
  destruct (load_index_config self db) as [Hm Hd].
  unfold cleared. by rewrite Hm, Hd.
Qed.

(** *** The row loop *)

Lemma load_row_inr self idx row acc acc' :
  load_row self idx row acc = inr acc' ->
  exists v,
    decodes_to self row v /\
    embeddings_list acc' = embeddings_list acc ++ [v] /\
    error_ids acc' = error_ids acc ++ [error_id row] /\
    (exists p, acc_error_store acc'
               = <[error_id row := p]> (acc_error_store acc)) /\
    acc_index_to_error_id acc'
      = <[idx := error_id row]> (acc_index_to_error_id acc).
Proof.
  unfold load_row, decodes_to.
  destruct (embedding_dim_db row =? embedding_dim self) eqn:Hd; simpl;
    [|discriminate].
  apply Z.eqb_eq in Hd.
  destruct (decode_embedding (error_id row) (embedding row)) as [e|v] eqn:Hv;
    simpl; [discriminate|].
  destruct (Z.of_nat (length v) =? embedding_dim self) eqn:Hl; simpl;
    [|discriminate].
  apply Z.eqb_eq in Hl.
  intros [= <-]. exists v. simpl. repeat split; try done. by eexists.
Qed.

Lemma load_rows_inr self rows : forall idx acc acc',
  load_rows self idx rows acc = inr acc' ->
  exists vs,
    Forall2 (decodes_to self) rows vs /\
    embeddings_list acc' = embeddings_list acc ++ vs /\
    error_ids acc' = error_ids acc ++ (error_id <$> rows) /\
    dom (acc_error_store acc')
      = dom (acc_error_store acc) ∪ list_to_set (error_id <$> rows) /\
    (forall k : Z,
       acc_index_to_error_id acc' !! k =
         if decide (idx <= k < idx + Z.of_nat (length rows))
         then (error_id <$> rows) !! Z.to_nat (k - idx)
         else acc_index_to_error_id acc !! k).
Proof.
  induction rows as [|row rest IH]; intros idx acc acc'; simpl.
  - intros [= <-]. exists []. rewrite !app_nil_r. repeat split; try done.
    + by rewrite (right_id_L ∅ (∪)).
    + intros k. case_decide; [lia | done].
  - destruct (load_row self idx row acc) as [e|acc1] eqn:H1; simpl;
      [discriminate|].
    intros H2.
    apply load_row_inr in H1 as (v & Hv & He & Hi & [p Hs] & Hm).
    apply IH in H2 as (vs & Hvs & He' & Hi' & Hs' & Hm').
    exists (v :: vs). repeat split.
    + by constructor.
    + rewrite He', He. by rewrite <- app_assoc.
    + rewrite Hi', Hi. by rewrite <- app_assoc.
    + rewrite Hs', Hs, dom_insert_L. simpl.
      by rewrite (comm_L (∪) {[error_id row]}), (assoc_L (∪)).
    + intros k. rewrite Hm', Hm.
      repeat case_decide; try lia.
      * replace (Z.to_nat (k - idx)) with (S (Z.to_nat (k - (idx + 1))))
          by lia. done.
      * assert (k = idx) as -> by lia.
        rewrite lookup_insert_eq. by rewrite Z.sub_diag.
      * rewrite lookup_insert_ne; [done | lia].
Qed.

(** A row that fails a check makes the whole loop raise. *)
Lemma load_rows_raises self rows row idx acc :
  row ∈ rows ->
  (forall v, ~ decodes_to self row v) ->
  exists e, load_rows self idx rows acc = inl e.
Proof.
  intros Hin Hbad.
  destruct (load_rows self idx rows acc) as [e|acc'] eqn:H; [by eexists|].
  apply load_rows_inr in H as (vs & Hvs & _).
  apply list_elem_of_lookup in Hin as [i Hi].
  destruct (Forall2_lookup_l _ _ _ _ _ Hvs Hi) as (v & _ & Hv).
  by destruct (Hbad v).
Qed.

Lemma bad_dimension_not_decodes self row :
  bad_dimension self row -> forall v, ~ decodes_to self row v.
Proof.
  intros [Hd | (v' & Hv' & Hl)] v (Hd' & Hv & Hl'); [done|].
  rewrite Hv in Hv'. by injection Hv' as ->.
Qed.

(** *** What a build that raised nothing has produced *)

Lemma IndexFlatIP_add_new dim (vs : list (list Q)) :
  Forall (fun v => Z.of_nat (length v) = dim) vs ->
  IndexFlatIP_add (IndexFlatIP_new dim) vs
    = inr {| faiss_d := dim; faiss_xb := vs |}.
Proof.
  intros H. unfold IndexFlatIP_add, IndexFlatIP_new. simpl.
  rewrite (proj2 (forallb_forall _ vs)); [done|].
  intros v Hv%list_elem_of_In. apply Z.eqb_eq.
  by apply (proj1 (Forall_forall _ vs) H).
Qed.

Lemma build_index_inr self rows ix es i2e :
  build_index self rows = inr (ix, es, i2e) ->
  rows <> [] /\
  faiss_d ix = embedding_dim self /\
  Forall2 (decodes_to self) rows (faiss_xb ix) /\
  dom es = list_to_set (error_id <$> rows) /\
  (forall k : Z,
     i2e !! k =
       if decide (0 <= k < Z.of_nat (length rows))
       then (error_id <$> rows) !! Z.to_nat k
       else None).
Proof.
  unfold build_index. destruct rows as [|row rest]; [discriminate|].
  set (rows := row :: rest).
  destruct (load_rows self 0 rows build_acc_empty) as [e|acc] eqn:Hl;
    simpl; [discriminate|].
  apply load_rows_inr in Hl as (vs & Hvs & He & _ & Hs & Hm).
  simpl in He. rewrite He.
  rewrite IndexFlatIP_add_new.
  - simpl. intros [= <- <- <-]. simpl. repeat split; try done.
    + rewrite Hs. simpl. by rewrite dom_empty_L, (left_id_L ∅ (∪)).
    + intros k. rewrite Hm, Z.sub_0_r, Z.add_0_l. subst rows.
      repeat case_decide; simpl in *; try done; lia.
  - apply Forall_forall. intros v Hv.
    apply list_elem_of_lookup in Hv as [i Hi].
    destruct (Forall2_lookup_r _ _ _ _ _ Hvs Hi) as (r & _ & _ & _ & Hlen).
    done.
Qed.

(** A build raises nothing exactly when there is a row and every row
    passes the checks. *)
Lemma load_rows_total self rows : forall idx acc vs,
  Forall2 (decodes_to self) rows vs ->
  exists acc', load_rows self idx rows acc = inr acc'.
Proof.
  induction rows as [|row rest IH]; intros idx acc vs Hvs; simpl.
  - by eexists.
  - inversion Hvs as [|? v ? vs' (Hd & Hv & Hl) Hrest]; subst.
    unfold load_row. rewrite Hd, Z.eqb_refl. simpl. rewrite Hv. simpl.
    rewrite Hl, Z.eqb_refl. simpl. by eapply IH.
Qed.

Lemma build_index_total self rows vs :
  rows <> [] ->
  Forall2 (decodes_to self) rows vs ->
  exists snap, build_index self rows = inr snap.
Proof.
  intros Hne Hvs. unfold build_index.
  destruct rows as [|row rest]; [done|].
  destruct (load_rows_total self (row :: rest) 0 build_acc_empty vs Hvs)
    as [acc Hacc].
  rewrite Hacc. simpl.
  apply load_rows_inr in Hacc as (vs' & Hvs' & He & _).
  simpl in He. rewrite He, IndexFlatIP_add_new; [by eexists|].
  apply Forall_forall. intros v Hv.
  apply list_elem_of_lookup in Hv as [i Hi].
  by destruct (Forall2_lookup_r _ _ _ _ _ Hvs' Hi) as (r & _ & _ & _ & Hlen).
Qed.

(** The ordinal mapping of a build has one entry per row. *)
Lemma size_ordinal_map (m : gmap Z string) (ids : list string) :
  (forall k : Z,
     m !! k = if decide (0 <= k < Z.of_nat (length ids))
              then ids !! Z.to_nat k else None) ->
  size m = length ids.
Proof.
  intros Hm.
  assert (dom m = list_to_set (Z.of_nat <$> seq 0 (length ids)) :> gset Z)
    as Hdom.
  { apply set_eq. intros k.
    rewrite elem_of_dom, Hm, elem_of_list_to_set, list_elem_of_fmap.
    case_decide as Hk.
    - split; [|intros _; apply lookup_lt_is_Some; lia].
      intros _. exists (Z.to_nat k). split; [lia|].
      apply elem_of_seq. lia.
    - split; [by intros [? ?]|].
      intros (i & -> & Hi%elem_of_seq). lia. }
  rewrite <- size_dom, Hdom, size_list_to_set, length_fmap, length_seq;
    [done|].
  apply NoDup_fmap_2; [intros ? ? ?; lia | apply NoDup_seq].
Qed.

Local Abbreviation poll_loop := (poll_loop json_loads literal_eval).
Local Abbreviation load_index_background :=
  (load_index_background json_loads literal_eval).
Local Abbreviation reload_index_endpoint :=
  (reload_index_endpoint json_loads literal_eval).

(** *** The polling loop *)

Lemma contains_no_embeddings :
  contains "No embeddings found"
    "No embeddings found in PostgreSQL. Run init job first." = true.
Proof. reflexivity. Qed.

Lemma poll_loop_step fuel storage elapsed self :
  elapsed < max_wait_time ->
  poll_loop (S fuel) storage elapsed self =
    match load_index self (storage elapsed) with
    | (inr _, self') => Some (ExitLoaded, self')
    | (inl (ValueError msg), self') =>
        if contains "No embeddings found" msg then
          poll_loop fuel storage (elapsed + wait_interval) self'
        else Some (ExitFailed (ValueError msg), self')
    | (inl _, self') =>
        poll_loop fuel storage (elapsed + wait_interval) self'
    end.
Proof.
  intros H. simpl. by rewrite (proj2 (Z.ltb_lt _ _) H).
Qed.

Lemma poll_loop_timed_out fuel storage elapsed self :
  max_wait_time <= elapsed ->
  poll_loop fuel storage elapsed self = Some (ExitTimedOut, self).
Proof.
  intros H. destruct fuel; simpl; by rewrite (proj2 (Z.ltb_ge _ _) H).
Qed.

(** With one unit of fuel per poll interval left, the loop returns; it
    returns [ExitLoaded] with an index, and otherwise leaves the loader as
    it found it. *)
Lemma poll_loop_returns storage : forall fuel elapsed self,
  max_wait_time - elapsed <= wait_interval * Z.of_nat fuel ->
  index self = None ->
  exists exit self',
    poll_loop fuel storage elapsed self = Some (exit, self') /\
    match exit with
    | ExitLoaded => is_Some (index self')
    | ExitNoDatabaseUrl => False
    | _ => self' = self
    end.
Proof.
  induction fuel as [|fuel IH]; intros elapsed self Hfuel Hidx.
  - exists ExitTimedOut, self. split; [|done].
    apply poll_loop_timed_out. unfold wait_interval in Hfuel. lia.
  - destruct (Z.lt_ge_cases elapsed max_wait_time) as [Hlt|Hge].
    2:{ exists ExitTimedOut, self. split; [|done].
        by apply poll_loop_timed_out. }
    rewrite (poll_loop_step _ _ _ _ Hlt).
    assert (max_wait_time - (elapsed + wait_interval)
            <= wait_interval * Z.of_nat fuel) as Hfuel'
      by (unfold wait_interval in *; lia).
    destruct (load_index self (storage elapsed)) as [[e|snap] self1] eqn:Hl.
    + apply load_index_raise_keeps_self in Hl as ->.
      destruct e as [msg|msg|msg|msg]; try by apply IH.
      destruct (contains "No embeddings found" msg); [by apply IH|].
      by exists (ExitFailed (ValueError msg)), self.
    + apply load_index_ok_cached in Hl as (_ & Hix & _).
      exists ExitLoaded, self1. split; [done|]. by eexists.
Qed.

(** *** Claims about the loader *)

(** C4: in a build attempt, a single row whose declared embedding
    dimension differs from the configured one, or whose decoded vector has
    another length, makes the whole build raise; nothing is assigned to the
    loader, whatever the other rows are. *)
Theorem bad_row_fails_whole_build self rows row :
  is_cached self = false ->
  row ∈ rows ->
  bad_dimension self row ->
  exists e,
    build_index self rows = inl e /\
    load_index self (DbRows rows) = (inl e, self).
Proof.
  intros Hc Hin Hbad.
  assert (exists e, build_index self rows = inl e) as [e He].
  { unfold build_index. destruct rows as [|r rs]; [by eexists|].
    destruct (load_rows_raises self (r :: rs) row 0 build_acc_empty Hin
                (bad_dimension_not_decodes self row Hbad)) as [e He].
    exists e. by rewrite He. }
  exists e. split; [done|].
  by rewrite (load_index_miss _ _ Hc), He.
Qed.

(** C10: once a build has succeeded, every later [load_index] answers
    with the same index, payload store and ordinal mapping whatever the
    storage holds or does, and leaves the loader as it is; only
    [reload_index], which clears the loaded flag, reads the storage
    again. *)
Theorem loaded_index_is_cached self db snap self' :
  load_index self db = (inr snap, self') ->
  (forall db', load_index self' db' = (inr snap, self')) /\
  (forall e, reload_index self' (DbRaise e) = (inl e, cleared self')) /\
  (forall rows,
     (reload_index self' (DbRows rows)).1 = build_index (cleared self') rows).
Proof.
  intros H. apply load_index_ok_cached in H as (Hc & Hix & Hes & Hm).
  split; [|split].
  - intros db'. destruct (load_index_hit self' db' Hc) as (ix & Hix' & ->).
    rewrite Hix in Hix'. injection Hix' as <-.
    rewrite Hes, Hm. by destruct snap as [[? ?] ?].
  - intros e. rewrite reload_index_unfold.
    by rewrite (load_index_miss _ _ (is_cached_cleared self')).
  - intros rows. rewrite reload_index_unfold.
    rewrite (load_index_miss _ _ (is_cached_cleared self')).
    by destruct (build_index (cleared self') rows) as [e|[[ix es] i2e]].
Qed.

(** C9: with the storage unchanged, a second [reload_index] right after
    a first one returns the same snapshot (same index size, same vectors
    under the same keys) and leaves the loader in the same state, so every
    query is answered alike after either. *)
Theorem reload_is_idempotent self db :
  let first := reload_index self db in
  let second := reload_index first.2 db in
  second.1 = first.1 /\
  second.2 = first.2 /\
  health_check (Some second.2) = health_check (Some first.2) /\
  (forall q top_k top_n threshold,
     query_rag (Some second.2) q top_k top_n threshold
       = query_rag (Some first.2) q top_k top_n threshold).
Proof.
  cbv zeta. rewrite !reload_index_unfold.
  rewrite cleared_load_index.
  change (cleared (cleared self)) with (cleared self).
  by repeat split.
Qed.

(** C1, as the code has it: [load_index] is all-or-nothing, a call that
    raises leaves the loader unchanged; [reload_index] first discards the
    loaded snapshot, so after a rebuild that raises the loader holds no
    snapshot and probes and queries are refused, and after a rebuild that
    succeeds the loader holds exactly the new snapshot. *)
Theorem reload_outcome self db :
  match load_index self db with
  | (inl _, self') => self' = self
  | (inr _, _) => True
  end /\
  match reload_index self db with
  | (inl _, self') =>
      self' = cleared self /\
      health_check (Some self') = Unhealthy "Index not loaded" /\
      readiness_check (Some self')
        = inl (mkHTTPException 503 "Index not loaded") /\
      forall q top_k top_n threshold,
        query_rag (Some self') q top_k top_n threshold
          = inl (mkHTTPException 503
                   "RAG index not loaded. Service is not ready.")
  | (inr (ix, es, i2e), self') =>
      index self' = Some ix /\
      error_store self' = es /\
      index_to_error_id self' = i2e /\
      _loaded self' = true /\
      exists rows,
        db = DbRows rows /\
        build_index (cleared self) rows = inr (ix, es, i2e)
  end.
Proof.
  split.
  - destruct (load_index self db) as [[e|snap] self'] eqn:H; [|done].
    by apply load_index_raise_keeps_self in H.
  - rewrite reload_index_unfold.
    rewrite (load_index_miss _ _ (is_cached_cleared self)).
    destruct db as [rows|e]; [|done].
    destruct (build_index (cleared self) rows) as [e|[[ix es] i2e]] eqn:Hb;
      [done|].
    simpl. repeat split. by exists rows.
Qed.

End LoaderProperties.

(** ** The search *)

Section CandidateOrder.

Lemma Qltb_true x y : Qltb x y = true <-> (x < y)%Q.
Proof.
  unfold Qltb. rewrite negb_true_iff. split.
  - intros H. apply Qnot_le_lt. intros Hle%Qle_bool_iff. congruence.
  - intros H. destruct (Qle_bool y x) eqn:E; [|done].
    apply Qle_bool_iff in E. lra.
Qed.

Lemma Qltb_false x y : Qltb x y = false <-> (y <= x)%Q.
Proof.
  unfold Qltb. rewrite negb_false_iff. apply Qle_bool_iff.
Qed.

Lemma before_spec a b :
  before a b = true <->
  (snd b < snd a)%Q \/ ((snd a == snd b)%Q /\ fst a < fst b).
Proof.
  unfold before.
  by rewrite orb_true_iff, andb_true_iff, Qltb_true, Qeq_bool_iff, Z.ltb_lt.
Qed.

Lemma before_irrefl a : before a a = false.
Proof.
  destruct (before a a) eqn:E; [|done].
  apply before_spec in E as [H | [_ H]]; [lra | lia].
Qed.

Lemma before_asym a b : before a b = true -> before b a = false.
Proof.
  intros H. destruct (before b a) eqn:E; [|done].
  apply before_spec in H, E.
  destruct H as [H | [H1 H2]], E as [E | [E1 E2]]; try lra; lia.
Qed.

Lemma before_trans a b c :
  before a b = true -> before b c = true -> before a c = true.
Proof.
  rewrite !before_spec.
  intros [H | [H1 H2]] [E | [E1 E2]].
  - left. lra.
  - left. lra.
  - left. lra.
  - right. split; [lra | lia].
Qed.

Lemma not_after_score a b : not_after a b -> (snd b <= snd a)%Q.
Proof.
  unfold not_after, before. intros [H _]%orb_false_iff.
  by apply Qltb_false.
Qed.

Lemma insert_cand_Permutation c l : insert_cand c l ≡ₚ c :: l.
Proof.
  induction l as [|x l IH]; simpl; [done|].
  destruct (before c x); [done|].
  rewrite IH. apply Permutation_swap.
Qed.

Lemma sort_cands_Permutation l : sort_cands l ≡ₚ l.
Proof.
  induction l as [|x l IH]; simpl; [done|].
  by rewrite insert_cand_Permutation, IH.
Qed.

Lemma insert_cand_sorted c l :
  StronglySorted not_after l -> StronglySorted not_after (insert_cand c l).
Proof.
  induction 1 as [|x l Hl IH Hx]; simpl.
  - by repeat constructor.
  - destruct (before c x) eqn:E.
    + constructor; [by constructor|].
      constructor; [by apply before_asym|].
      eapply Forall_impl; [exact Hx|]. intros z Hz. unfold not_after in *.
      destruct (before z c) eqn:Hzc; [|done].
      by rewrite (before_trans z c x Hzc E) in Hz.
    + constructor; [done|].
      rewrite insert_cand_Permutation. by constructor.
Qed.

Lemma sort_cands_sorted l : StronglySorted not_after (sort_cands l).
Proof.
  induction l as [|x l IH]; simpl; [constructor|].
  by apply insert_cand_sorted.
Qed.

(** In a sorted list, fewer than [p + 1] candidates are reported before
    the one at position [p]. *)
Lemma sorted_prefix_rank s :
  StronglySorted not_after s ->
  forall p a, s !! p = Some a ->
  (length (filter (fun y => before y a = true) s) <= p)%nat.
Proof.
  induction 1 as [|x l Hl IH Hx]; intros p a Hp; [done|].
  destruct p as [|p]; simpl in Hp.
  - injection Hp as ->.
    rewrite filter_cons_False by (by rewrite before_irrefl).
    assert (filter (fun y => before y a = true) l = []) as ->; [|done].
    clear -Hx. induction Hx as [|y l Hy Hx IH]; [done|].
    rewrite filter_cons_False; [done|]. unfold not_after in Hy. congruence.
  - specialize (IH p a Hp). rewrite filter_cons.
    case_decide; simpl; lia.
Qed.

Lemma top_k_rank l k c :
  c ∈ take k (sort_cands l) ->
  (length (filter (fun y => before y c = true) l) < k)%nat.
Proof.
  intros (i & Hi & Hlt)%elem_of_take.
  pose proof (sorted_prefix_rank _ (sort_cands_sorted l) i c Hi) as H.
  rewrite sort_cands_Permutation in H. lia.
Qed.

Lemma StronglySorted_sublist {A} (R : relation A) l1 l2 :
  l1 `sublist_of` l2 -> StronglySorted R l2 -> StronglySorted R l1.
Proof.
  induction 1 as [|x l1 l2 Hsub IH|x l1 l2 Hsub IH]; intros Hs.
  - constructor.
  - apply StronglySorted_inv in Hs as [Hs Hx]. constructor; [by apply IH|].
    apply Forall_forall. intros y Hy.
    apply (proj1 (Forall_forall _ _) Hx). by eapply elem_of_sublist.
  - apply StronglySorted_inv in Hs as [Hs _]. by apply IH.
Qed.

Lemma StronglySorted_lookup_lt {A} (R : relation A) l :
  StronglySorted R l ->
  forall i j a b, (i < j)%nat -> l !! i = Some a -> l !! j = Some b -> R a b.
Proof.
  induction 1 as [|x l Hl IH Hx]; intros i j a b Hij Hi Hj; [done|].
  destruct j as [|j]; [lia|]. simpl in Hj.
  destruct i as [|i]; simpl in Hi.
  - injection Hi as ->.
    apply (proj1 (Forall_forall _ _) Hx). by eapply list_elem_of_lookup_2.
  - eapply (IH i j); [lia | done | done].
Qed.

End CandidateOrder.

Section ResultLoop.

Variable self : RAGIndexLoader.
Variable threshold : Q.

(** The result loop raises no [KeyError] when both dictionaries answer for
    every candidate it does not skip, and then appends one result per kept
    candidate, in order. *)
Lemma collect_results_spec cands : forall results,
  Forall (fun c => fst c = -1 \/
                   exists eid error_data,
                     index_to_error_id self !! fst c = Some eid /\
                     error_store self !! eid = Some error_data) cands ->
  exists rs,
    collect_results self threshold cands results = inr (results ++ rs) /\
    Forall2 (is_result_of self) (filter (kept threshold) cands) rs.
Proof.
  induction cands as [|[idx sim] cands IH]; intros results Hall.
  - exists []. by rewrite app_nil_r.
  - apply Forall_cons in Hall as [Hc Hall]. simpl in Hc |- *.
    destruct (idx =? -1) eqn:Hidx.
    { apply Z.eqb_eq in Hidx.
      rewrite filter_cons_False by (intros [? _]; done).
      by apply IH. }
    apply Z.eqb_neq in Hidx.
    destruct (Qltb sim threshold) eqn:Hsim.
    { rewrite filter_cons_False by (intros [_ ?]; simpl in *; congruence).
      by apply IH. }
    destruct Hc as [Hc | (eid & error_data & Hi & He)]; [done|].
    rewrite Hi, He.
    destruct (IH (results ++ [mk_result eid error_data sim]) Hall)
      as (rs & Hrs & Hrel).
    exists (mk_result eid error_data sim :: rs). split.
    + rewrite Hrs. by rewrite <- app_assoc.
    + rewrite filter_cons_True by done.
      constructor; [|done]. by exists eid, error_data.
Qed.

End ResultLoop.

Lemma Forall2_Forall_r {A B} (R : A -> B -> Prop) (P : A -> Prop)
    (Q : B -> Prop) l k :
  Forall2 R l k -> Forall P l -> (forall a b, R a b -> P a -> Q b) ->
  Forall Q k.
Proof.
  intros H2 HP Himp. induction H2 as [|a b l k Hab H2 IH]; [constructor|].
  apply Forall_cons in HP as [Ha HP]. constructor; eauto.
Qed.

(** The slots FAISS could not fill are skipped. *)
Lemma filter_kept_pads threshold n sim :
  filter (kept threshold) (replicate n (-1, sim)) = [].
Proof.
  induction n as [|n IH]; [done|].
  simpl. rewrite filter_cons_False; [done | by intros [? _]].
Qed.

(** What [search] returns for a loader that serves [ix]. *)
Lemma search_spec self ix q top_k top_n threshold :
  serves self ix ->
  Z.of_nat (length q) = faiss_d ix ->
  exists cands results,
    search self ix q top_k top_n threshold = inr results /\
    cands `sublist_of` take top_k (sort_cands (scored_rows ix q)) /\
    Forall (kept threshold) cands /\
    Forall2 (is_result_of self) cands results /\
    (length results <= top_n)%nat.
Proof.
  intros (Hix & Hd & Hserve) Hq.
  unfold search, IndexFlatIP_search.
  rewrite (proj2 (Z.eqb_eq _ _) Hq). simpl.
  set (top := take top_k (sort_cands (scored_rows ix q))).
  set (pads := replicate (top_k - length top) (-1, neg_FLT_MAX)).
  rewrite zip_fst_snd.
  destruct (collect_results_spec self threshold (top ++ pads) [])
    as (rs & Hrs & Hrel).
  { apply Forall_app. split.
    - apply Forall_forall. intros c Hc. right.
      assert (c ∈ scored_rows ix q) as Hin.
      { rewrite <- (sort_cands_Permutation (scored_rows ix q)).
        eapply elem_of_sublist; [exact Hc | apply sublist_take]. }
      apply elem_of_lookup_imap in Hin as (i & v & -> & Hv).
      apply Hserve. unfold ntotal. by eapply lookup_lt_Some.
    - apply Forall_forall. intros c Hc%elem_of_replicate_inv.
      left. by subst c. }
  rewrite Hrs. simpl.
  rewrite filter_app in Hrel. unfold pads in Hrel.
  rewrite filter_kept_pads, app_nil_r in Hrel.
  exists (take top_n (filter (kept threshold) top)), (take top_n rs).
  repeat split.
  - etrans; [apply sublist_take | apply sublist_filter].
  - apply Forall_forall. intros c Hc.
    assert (c ∈ filter (kept threshold) top) as Hin
      by (eapply elem_of_sublist; [exact Hc | apply sublist_take]).
    by apply list_elem_of_filter in Hin as [? _].
  - by apply Forall2_take.
  - rewrite length_take. lia.
Qed.

Section SnapshotProperties.

Variable json_loads : string -> option pyvalue.
Variable literal_eval : string -> option pyvalue.

Local Abbreviation build_index := (build_index json_loads literal_eval).
Local Abbreviation load_index := (load_index json_loads literal_eval).
Local Abbreviation decodes_to := (decodes_to json_loads literal_eval).

(** After a build, the loader serves the index it has built. *)
Lemma build_serves self0 db ix es i2e self :
  is_cached self0 = false ->
  load_index self0 db = (inr (ix, es, i2e), self) ->
  serves self ix /\
  index_to_error_id self = i2e /\
  error_store self = es.
Proof.
  intros Hc Hl. rewrite (load_index_miss _ _ _ _ Hc) in Hl.
  destruct db as [rows|e]; [|discriminate].
  destruct (build_index self0 rows) as [e|[[ix' es'] i2e']] eqn:Hb;
    [discriminate|].
  injection Hl as -> -> -> <-.
  apply build_index_inr in Hb as (_ & Hd & Hvs & Hdom & Hm).
  split; [|done]. split; [done|]. split; [done|]. simpl.
  intros i Hi. unfold ntotal in Hi.
  rewrite <- (Forall2_length _ _ _ Hvs) in Hi.
  destruct (lookup_lt_is_Some_2 rows i Hi) as [row Hrow].
  assert ((error_id <$> rows) !! i = Some (error_id row)) as Hid
    by (by rewrite list_lookup_fmap, Hrow).
  assert (is_Some (es !! error_id row)) as [error_data He].
  { apply elem_of_dom. rewrite Hdom. apply elem_of_list_to_set.
    by eapply list_elem_of_lookup_2. }
  exists (error_id row), error_data. split; [|done].
  rewrite Hm, decide_True by lia. by rewrite Nat2Z.id.
Qed.

(** C5, as the code has it: a build that succeeds produces an index with
    one row per storage row and an ordinal mapping of the same size; the
    payload mapping has that size too when the keys of the rows are
    pairwise distinct; every stored vector is the decoded vector of its
    row, unchanged and of the configured dimension, so the stored vectors
    have unit norm when the vectors in storage have. *)
Theorem successful_build_shape self rows ix es i2e :
  build_index self rows = inr (ix, es, i2e) ->
  ntotal ix = length rows /\
  size i2e = length rows /\
  (NoDup (error_id <$> rows) -> size es = length rows) /\
  faiss_d ix = embedding_dim self /\
  Forall2 (decodes_to self) rows (faiss_xb ix) /\
  ((forall row v, row ∈ rows -> decodes_to self row v -> unit_norm v) ->
   Forall unit_norm (faiss_xb ix)).
Proof.
  intros Hb. apply build_index_inr in Hb as (_ & Hd & Hvs & Hdom & Hm).
  repeat split; try done.
  - unfold ntotal. by rewrite (Forall2_length _ _ _ Hvs).
  - rewrite (size_ordinal_map i2e (error_id <$> rows)).
    + by rewrite length_fmap.
    + intros k. rewrite Hm. by rewrite length_fmap.
  - intros Hnd. rewrite <- size_dom, Hdom, size_list_to_set by done.
    by rewrite length_fmap.
  - intros Hnorm. apply Forall_forall. intros v Hv.
    apply list_elem_of_lookup in Hv as [i Hi].
    destruct (Forall2_lookup_r _ _ _ _ _ Hvs Hi) as (row & Hrow & Hdec).
    eapply Hnorm; [|exact Hdec]. by eapply list_elem_of_lookup_2.
Qed.

End SnapshotProperties.

(** ** The initialization pipeline *)

Lemma only_after_sound a b tr :
  a <> b ->
  only_after a b tr = true ->
  forall pre post, tr = pre ++ b :: post -> a ∈ pre.
Proof.
  intros Hab. induction tr as [|e tr IH]; intros H pre post Heq.
  - by destruct pre.
  - simpl in H. destruct pre as [|e' pre]; simpl in Heq.
    + injection Heq as -> _.
      rewrite decide_False, decide_True in H by done. discriminate.
    + injection Heq as <- Heq. destruct (decide (e = a)) as [->|Hne].
      * constructor.
      * destruct (decide (e = b)); [discriminate|].
        apply list_elem_of_further. by eapply IH.
Qed.

Ltac unfold_main :=
  unfold main, start_monitor, main_try, main_finally, try_finally,
    try_except, call, emit, raise, mbind, M_bind, mret, M_ret.

(** Case analysis on the outcome of the next collaborator the run asks. *)
Ltac run_main :=
  repeat match goal with
         | |- context [match ?x with _ => _ end] =>
             first
               [ is_var x; destruct x
               | match x with
                 | ?f ?a => first [is_var a; destruct a
                                  | is_var f; destruct (f a)]
                 end ];
             simpl
         end.

Ltac not_in_trace :=
  repeat (apply not_elem_of_cons; split; [discriminate|]);
  apply not_elem_of_nil.

Section PipelineProperties.

Context {P : Type}.
Variable w : world P.

(** The cleanup appends to the trace of the body and nothing else. *)
Lemma main_finally_trace tr :
  (main_finally w true tr).1 = tr ++ [MonitorCancel; MonitorAwaited].
Proof.
  unfold_main. simpl.
  destruct (await_monitor w) as [e|[]]; simpl.
  - destruct (is_CancelledError e); simpl; by rewrite <- app_assoc.
  - by rewrite <- app_assoc.
Qed.

Lemma main_started :
  create_monitor_task w = inr () ->
  main w [] = try_finally (main_try w) (main_finally w true) [MonitorCreated].
Proof. intros H. unfold main, start_monitor, try_except, call, emit,
  mbind, M_bind, mret, M_ret. by rewrite H. Qed.

(** The checks on the trace of one run, in the form that computes. *)
Lemma main_trace_checks :
  only_after PrepareCompleted ProcessInvoked (main w []).1 = true /\
  only_after JobWaitSucceeded ProcessInvoked (main w []).1 = true.
Proof.
  destruct w as [cm sd tp jw rs pr am].
  unfold_main. simpl. split; run_main; reflexivity.
Qed.

(** C7: in every run, whatever precedes the invocation of the
    processing phase in the trace contains the completion of the
    preparation and the success of the job-wait; and when the job-wait
    raises, the processing phase is never invoked and the run ends by an
    exception. *)
Theorem process_only_after_prepare_and_job_wait :
  (forall pre post,
     (main w []).1 = pre ++ ProcessInvoked :: post ->
     PrepareCompleted ∈ pre /\ JobWaitSucceeded ∈ pre) /\
  (forall e,
     rag_job_wait w = inl e ->
     (ProcessInvoked ∉ (main w []).1) /\
     (exists e', (main w []).2 = inl e')).
Proof.
  split.
  - intros pre post Heq. destruct main_trace_checks as [H1 H2].
    split; eapply only_after_sound; eauto; discriminate.
  - intros e He. destruct w as [cm sd tp jw rs pr am]. simpl in He.
    subst jw. unfold_main. simpl.
    split; run_main; first [not_in_trace | by eexists].
Qed.

(** C8: when the monitor task was started, every run, however its body
    ends, closes its trace with the cancellation of the monitor and the
    await of it; and when that await ends by [CancelledError], or
    normally, the run ends the way its body did: the cancellation is not
    raised to the caller. *)
Theorem monitor_cancelled_and_awaited :
  create_monitor_task w = inr () ->
  (exists tr0, (main w []).1 = tr0 ++ [MonitorCancel; MonitorAwaited]) /\
  (await_monitor w = inl CancelledError \/ await_monitor w = inr () ->
   (main w []).2 = (main_try w [MonitorCreated]).2).
Proof.
  intros Hcm. rewrite (main_started Hcm). unfold try_finally.
  destruct (main_try w [MonitorCreated]) as [tr1 r].
  pose proof (main_finally_trace tr1) as Htr.
  split.
  - exists tr1. by destruct (main_finally w true tr1) as [tr2 [e|[]]].
  - intros Ham. clear Htr. unfold_main. simpl.
    by destruct Ham as [-> | ->].
Qed.

End PipelineProperties.

(** * The properties on concrete runs *)

Local Abbreviation pvt := parse_value_text.

(** ** Loader *)

Lemma bad_row_fails_whole_build_witness :
  exists e,
    build_index pvt pvt fresh_loader rows_A_512_B = inl e /\
    load_index pvt pvt fresh_loader (DbRows rows_A_512_B)
      = (inl e, fresh_loader).
Proof.
  apply (bad_row_fails_whole_build pvt pvt fresh_loader rows_A_512_B
           row_dim_512).
  - reflexivity.
  - apply list_elem_of_further, list_elem_of_here.
  - left. vm_compute. discriminate.
Defined.

(** A vector sent as text with too few components is refused as well, and
    the message names the row. *)
Example short_text_vector_fails :
  load_index pvt pvt fresh_loader
    (DbRows [example_row "A" (basis 0) 768; row_text_short])
  = (inl (ValueError "Invalid embedding shape for D: expected 768, got 2"),
     fresh_loader).
Proof. vm_compute. reflexivity. Qed.

Example declared_dimension_message :
  (load_index pvt pvt fresh_loader (DbRows rows_A_512_B)).1
  = inl (ValueError "Embedding dimension mismatch: DB has 512, expected 768").
Proof. vm_compute. reflexivity. Qed.

Lemma loaded_index_is_cached_witness :
  load_index pvt pvt loader_AB db_down
  = (inr (index_AB, error_store loader_AB, index_to_error_id loader_AB),
     loader_AB).
Proof.
  apply (loaded_index_is_cached pvt pvt fresh_loader (DbRows rows_AB)
           (index_AB, error_store loader_AB, index_to_error_id loader_AB)
           loader_AB).
  vm_compute. reflexivity.
Defined.

(** With no rows at any time the loop gives up after exactly 120 polls. *)
Example empty_storage_times_out :
  load_index_background pvt pvt 120 (Some "postgresql://db/alm") None
    storage_empty None
  = Some (ExitTimedOut, Some fresh_loader) /\
  poll_loop pvt pvt 119 storage_empty 0 fresh_loader = None.
Proof. split; vm_compute; reflexivity. Qed.

(** The loop picks the rows up once the table exists. *)
Example late_storage_is_loaded :
  load_index_background pvt pvt 120 (Some "postgresql://db/alm") None
    storage_after_10 None
  = Some (ExitLoaded, Some loader_AB).
Proof. vm_compute. reflexivity. Qed.

(** The counterexample to C1: a reload that finds the storage down leaves
    a loader that served two rows without any index. *)
Lemma failed_reload_drops_snapshot :
  health_check (Some loader_AB) = Healthy 2 /\
  reload_index pvt pvt loader_AB db_down
    = (inl (OtherException "connection refused"), fresh_loader) /\
  (reload_index pvt pvt loader_AB db_down).2 <> loader_AB /\
  health_check (Some (reload_index pvt pvt loader_AB db_down).2)
    = Unhealthy "Index not loaded" /\
  query_rag (Some (reload_index pvt pvt loader_AB db_down).2)
    query_9_1 2 2 0
    = inl (mkHTTPException 503 "RAG index not loaded. Service is not ready.").
Proof.
  repeat split; try (vm_compute; reflexivity).
  vm_compute. discriminate.
Qed.

Lemma successful_build_shape_witness :
  ntotal index_AB = 2%nat /\
  size (index_to_error_id loader_AB) = 2%nat /\
  size (error_store loader_AB) = 2%nat /\
  Forall unit_norm (faiss_xb index_AB).
Proof.
  destruct (successful_build_shape pvt pvt fresh_loader rows_AB index_AB
              (error_store loader_AB) (index_to_error_id loader_AB))
    as (H1 & H2 & H3 & _ & _ & H6).
  - vm_compute. reflexivity.
  - split; [exact H1|]. split; [exact H2|]. split.
    + apply H3. apply NoDup_cons. split; [|apply NoDup_singleton].
      intros H%list_elem_of_singleton. discriminate.
    + apply H6. intros row v Hin (_ & Hv & _).
      apply elem_of_cons in Hin as [-> | Hin%list_elem_of_singleton].
      * injection Hv as <-. vm_compute. reflexivity.
      * subst row. injection Hv as <-. vm_compute. reflexivity.
Defined.

(** The counterexample to C5: a row of the configured dimension whose
    vector has norm 2 is built into the index as it is. *)
Lemma build_keeps_norm_2_vector :
  build_index pvt pvt fresh_loader [row_norm_2]
    = inr ({| faiss_d := 768; faiss_xb := [[2%Q] ++ replicate 767 0%Q] |},
           {[ "A" := {| pl_error_id := "A";
                        pl_error_title := "title of A";
                        pl_sections := ∅;
                        pl_metadata := ∅ |} ]},
           {[ 0 := "A" ]}) /\
  ~ unit_norm ([2%Q] ++ replicate 767 0%Q).
Proof.
  split; [vm_compute; reflexivity|].
  unfold unit_norm. vm_compute. discriminate.
Qed.

(** Two rows under one key share one payload: the payload mapping is
    smaller than the index. *)
Example same_key_rows_share_payload :
  let self := (load_index pvt pvt fresh_loader (DbRows rows_same_key)).2 in
  health_check (Some self) = Healthy 2 /\
  size (index_to_error_id self) = 2%nat /\
  size (error_store self) = 1%nat.
Proof. vm_compute. repeat split. Qed.

(** ** Search *)

(** The two examples of the specification: both rows above the threshold
    0, in the order [A], [B]; only [A] above the threshold 1/2. *)
Example query_AB_threshold_0 :
  (fun r => (res_error_id r, similarity_score r)) <$>
    from_option id [] (match query_rag (Some loader_AB) query_9_1 2 2 0 with
                       | inr rs => Some rs
                       | inl _ => None
                       end)
  = [("A", 9 # 10); ("B", 1 # 10)]%Q.
Proof. vm_compute. reflexivity. Qed.

Example query_AB_threshold_half :
  (fun r => (res_error_id r, similarity_score r)) <$>
    from_option id [] (match query_rag (Some loader_AB) query_9_1 2 2 (1 # 2)
                       with
                       | inr rs => Some rs
                       | inl _ => None
                       end)
  = [("A", 9 # 10)]%Q.
Proof. vm_compute. reflexivity. Qed.

(** No row reaches the threshold 1: the result is empty. *)
Example query_AB_threshold_1 :
  query_rag (Some loader_AB) query_9_1 2 2 1 = inr [].
Proof. vm_compute. reflexivity. Qed.

(** A query of another dimension is answered with an error. *)
Example query_wrong_dimension :
  query_rag (Some loader_AB) [1%Q; 0%Q] 2 2 0
  = inl (mkHTTPException 500 "Error processing query: assert d == self.d").
Proof. vm_compute. reflexivity. Qed.

(** Equal scores are reported by ascending ordinal, and missing
    candidates carry the label [-1]. *)
Example search_ties_and_padding :
  IndexFlatIP_search
    {| faiss_d := 1; faiss_xb := [[1%Q]; [2%Q]; [2%Q]; [3%Q]; [1%Q]] |}
    [1%Q] 7
  = inr ([3; 2; 2; 1; 1; neg_FLT_MAX; neg_FLT_MAX]%Q,
         [3; 1; 2; 0; 4; -1; -1]).
Proof. vm_compute. reflexivity. Qed.

(** ** Pipeline *)

Lemma process_only_after_prepare_and_job_wait_witness :
  (PrepareCompleted
     ∈ [MonitorCreated; SetupDataDirectories; JobWaitCreated;
        PrepareCompleted; JobWaitSucceeded; RagServiceReady] /\
   JobWaitSucceeded
     ∈ [MonitorCreated; SetupDataDirectories; JobWaitCreated;
        PrepareCompleted; JobWaitSucceeded; RagServiceReady]) /\
  ((ProcessInvoked ∉ (main world_job_timeout []).1) /\
   (exists e', (main world_job_timeout []).2 = inl e')).
Proof.
  split.
  - apply (proj1 (process_only_after_prepare_and_job_wait world_ok) _
             [ProcessCompleted; MonitorCancel; MonitorAwaited]).
    reflexivity.
  - apply (proj2 (process_only_after_prepare_and_job_wait world_job_timeout)
             (TimeoutError "job did not complete")).
    reflexivity.
Defined.

Lemma monitor_cancelled_and_awaited_witness :
  (exists tr0,
     (main world_job_timeout []).1 = tr0 ++ [MonitorCancel; MonitorAwaited]) /\
  (main world_job_timeout []).2 = inl (TimeoutError "job did not complete").
Proof.
  destruct (monitor_cancelled_and_awaited world_job_timeout eq_refl)
    as [H1 H2].
  split; [exact H1|].
  rewrite H2; [reflexivity | left; reflexivity].
Defined.

(** The traces of the two runs. *)
Example trace_world_ok :
  main world_ok []
  = ([MonitorCreated; SetupDataDirectories; JobWaitCreated;
      PrepareCompleted; JobWaitSucceeded; RagServiceReady; ProcessInvoked;
      ProcessCompleted; MonitorCancel; MonitorAwaited], inr ()).
Proof. reflexivity. Qed.

Example trace_world_job_timeout :
  main world_job_timeout []
  = ([MonitorCreated; SetupDataDirectories; JobWaitCreated;
      PrepareCompleted; MonitorCancel; MonitorAwaited],
     inl (TimeoutError "job did not complete")).
Proof. reflexivity. Qed.

(** * Further properties of the code *)

(** ** Strings *)

Lemma str_prefix_cons_ne a b s t :
  a <> b -> String.prefix (String a s) (String b t) = false.
Proof. intros H. simpl. by destruct (ascii_dec a b). Qed.

Lemma str_prefix_cons_eq a s t :
  String.prefix (String a s) (String a t) = String.prefix s t.
Proof. simpl. by destruct (ascii_dec a a). Qed.

Lemma str_prefix_nil s : String.prefix "" s = true.
Proof. by destruct s. Qed.

Lemma str_prefix_app_r sub s t :
  String.prefix sub s = true -> String.prefix sub (s +:+ t) = true.
Proof.
  revert sub. induction s as [|a s IH]; intros [|b sub] H;
    try apply str_prefix_nil; try discriminate.
  simpl in *. destruct (ascii_dec b a); [by apply IH | done].
Qed.

Lemma contains_app_r sub s t :
  contains sub s = true -> contains sub (s +:+ t) = true.
Proof.
  induction s as [|a s IH].
  - simpl. rewrite orb_false_r. intros H.
    pose proof (str_prefix_app_r sub "" t H) as H'.
    change ("" +:+ t) with t in *.
    destruct t; cbn [contains]; by rewrite H'.
  - cbn [contains]. intros [H|H]%orb_true_iff.
    + pose proof (str_prefix_app_r sub (String a s) t H) as H'.
      change (String a s +:+ t) with (String a (s +:+ t)) in *.
      cbn [contains]. by rewrite H'.
    + change (String a s +:+ t) with (String a (s +:+ t)).
      cbn [contains]. rewrite (IH H). apply orb_true_r.
Qed.

Lemma contains_app_l sub s t :
  contains sub t = true -> contains sub (s +:+ t) = true.
Proof.
  intros H. induction s as [|a s IH]; [done|].
  change (String a s +:+ t) with (String a (s +:+ t)).
  cbn [contains]. rewrite IH. apply orb_true_r.
Qed.

Lemma has_char_app c s t :
  has_char c (s +:+ t) = has_char c s || has_char c t.
Proof.
  induction s as [|a s IH]; [done|]. simpl. by rewrite IH, orb_assoc.
Qed.

(** A string without the first character of [sub] does not contain
    [sub]. *)
Lemma contains_needs_first_char c sub s :
  has_char c s = false -> contains (String c sub) s = false.
Proof.
  induction s as [|a s IH]; [done|].
  simpl has_char. intros [Ha Hs]%orb_false_iff.
  cbn [contains]. rewrite (IH Hs), orb_false_r.
  apply str_prefix_cons_ne. intros ->. by rewrite Ascii.eqb_refl in Ha.
Qed.

Lemma has_char_N_digits d :
  has_char "N" (NilEmpty.string_of_uint d) = false.
Proof. induction d; simpl; done. Qed.

Lemma has_char_N_str_Z z : has_char "N" (str_Z z) = false.
Proof.
  unfold str_Z, NilZero.string_of_int, NilZero.string_of_uint.
  destruct (Z.to_int z) as [d|d]; destruct d; simpl;
    try done; apply has_char_N_digits.
Qed.

Lemma dimension_message_not_retried a b :
  contains "No embeddings found"
    ("Embedding dimension mismatch: DB has " +:+ str_Z a
       +:+ ", expected " +:+ str_Z b) = false.
Proof.
  apply contains_needs_first_char.
  rewrite !has_char_app, !has_char_N_str_Z. reflexivity.
Qed.

(** ** More on the index loader *)

Section MoreLoaderProperties.

Variable json_loads : string -> option pyvalue.
Variable literal_eval : string -> option pyvalue.

Local Abbreviation decode_embedding :=
  (decode_embedding json_loads literal_eval).
Local Abbreviation load_row := (load_row json_loads literal_eval).
Local Abbreviation load_rows := (load_rows json_loads literal_eval).
Local Abbreviation build_index := (build_index json_loads literal_eval).
Local Abbreviation load_index := (load_index json_loads literal_eval).
Local Abbreviation reload_index := (reload_index json_loads literal_eval).
Local Abbreviation decodes_to := (decodes_to json_loads literal_eval).
Local Abbreviation row_error := (row_error json_loads literal_eval).
Local Abbreviation poll_loop := (poll_loop json_loads literal_eval).
Local Abbreviation load_index_background :=
  (load_index_background json_loads literal_eval).
Local Abbreviation reload_index_endpoint :=
  (reload_index_endpoint json_loads literal_eval).

(** The exception of a row depends neither on its ordinal nor on the rows
    before it. *)
Lemma load_row_inl self idx row acc e :
  load_row self idx row acc = inl e <-> row_error self row = Some e.
Proof.
  unfold row_error, load_row.
  destruct (negb (embedding_dim_db row =? embedding_dim self)).
  - split; congruence.
  - destruct (decode_embedding (error_id row) (embedding row)) as [e'|v];
      simpl; [split; congruence|].
    destruct (negb (Z.of_nat (length v) =? embedding_dim self));
      split; congruence.
Qed.

Lemma row_error_None self row :
  row_error self row = None <-> exists v, decodes_to self row v.
Proof.
  unfold row_error. split.
  - destruct (load_row self 0 row build_acc_empty) as [e|acc] eqn:H;
      [discriminate|].
    intros _. apply load_row_inr in H as (v & Hv & _). by exists v.
  - intros (v & Hd & Hv & Hl).
    unfold load_row. rewrite Hd, Z.eqb_refl. simpl.
    rewrite Hv. simpl. by rewrite Hl, Z.eqb_refl.
Qed.

Lemma load_row_store self idx row acc acc' :
  load_row self idx row acc = inr acc' ->
  acc_error_store acc'
    = <[error_id row := payload_of row]> (acc_error_store acc).
Proof.
  unfold load_row.
  destruct (negb (embedding_dim_db row =? embedding_dim self));
    [discriminate|].
  destruct (decode_embedding (error_id row) (embedding row)) as [e'|v];
    simpl; [discriminate|].
  destruct (negb (Z.of_nat (length v) =? embedding_dim self));
    [discriminate|].
  by intros [= <-].
Qed.

Lemma load_rows_app self l1 : forall idx l2 acc,
  load_rows self idx (l1 ++ l2) acc =
    bind_exn (load_rows self idx l1 acc)
      (fun acc1 => load_rows self (idx + Z.of_nat (length l1)) l2 acc1).
Proof.
  induction l1 as [|row l1 IH]; intros idx l2 acc; simpl.
  - by rewrite Z.add_0_r.
  - destruct (load_row self idx row acc) as [e|acc1]; simpl; [done|].
    rewrite IH. by replace (idx + 1 + Z.of_nat (length l1))
                  with (idx + Z.pos (Pos.of_succ_nat (length l1))) by lia.
Qed.

Lemma load_rows_good self good idx acc :
  Forall (fun r => row_error self r = None) good ->
  exists acc', load_rows self idx good acc = inr acc'.
Proof.
  intros H. assert (exists vs, Forall2 (decodes_to self) good vs) as [vs Hvs].
  { induction H as [|r good Hr _ [vs Hvs]]; [by exists []|].
    apply row_error_None in Hr as [v Hv]. exists (v :: vs). by constructor. }
  by eapply load_rows_total.
Qed.

(** The rows up to the first one that fails a check decide what the build
    raises. *)
Lemma build_index_first_error self good row rest e :
  Forall (fun r => row_error self r = None) good ->
  row_error self row = Some e ->
  build_index self (good ++ row :: rest) = inl e.
Proof.
  intros Hgood Hrow. unfold build_index.
  destruct (good ++ row :: rest) as [|r rs] eqn:Heq;
    [by destruct good|].
  rewrite <- Heq, load_rows_app.
  destruct (load_rows_good self good 0 build_acc_empty Hgood) as [acc ->].
  simpl.
  by rewrite (proj2 (load_row_inl self _ row acc e) Hrow).
Qed.

(** The keys of the payload store: the last row under a key wins. *)
Lemma load_rows_store self rows : forall idx acc acc',
  load_rows self idx rows acc = inr acc' ->
  forall k,
    acc_error_store acc' !! k =
      match last (filter (fun r => error_id r = k) rows) with
      | Some r => Some (payload_of r)
      | None => acc_error_store acc !! k
      end.
Proof.
  induction rows as [|row rest IH]; intros idx acc acc'; simpl.
  - by intros [= <-] k.
  - destruct (load_row self idx row acc) as [e|acc1] eqn:H1; simpl;
      [discriminate|].
    intros H2 k. rewrite (IH _ _ _ H2 k).
    rewrite (load_row_store _ _ _ _ _ H1), filter_cons.
    destruct (decide (error_id row = k)) as [Heq|Hne].
    + subst k.
      destruct (filter (fun r => error_id r = error_id row) rest)
        as [|r l] eqn:Hf.
      * simpl. by rewrite lookup_insert_eq.
      * rewrite last_cons_cons.
        by destruct (proj2 (last_is_Some (r :: l)) ltac:(done)) as [x ->].
    + destruct (last (filter (fun r => error_id r = k) rest)); [done|].
      by rewrite lookup_insert_ne.
Qed.

(** X1: a build succeeds exactly when the storage returned at least one
    row and every row passes the checks of the row loop. *)
Theorem build_succeeds_iff self rows :
  (exists snap, build_index self rows = inr snap) <->
  rows <> [] /\ Forall (fun r => row_error self r = None) rows.
Proof.
  split.
  - intros [[[ix es] i2e] Hb].
    apply build_index_inr in Hb as (Hne & _ & Hvs & _).
    split; [done|]. apply Forall_forall. intros r Hr.
    apply list_elem_of_lookup in Hr as [i Hi].
    destruct (Forall2_lookup_l _ _ _ _ _ Hvs Hi) as (v & _ & Hv).
    apply row_error_None. by exists v.
  - intros [Hne Hall].
    assert (exists vs, Forall2 (decodes_to self) rows vs) as [vs Hvs].
    { clear Hne. induction Hall as [|r rows Hr _ [vs Hvs]]; [by exists []|].
      apply row_error_None in Hr as [v Hv]. exists (v :: vs).
      by constructor. }
    by eapply build_index_total.
Qed.

(** X2: the build raises the exception of the first row that fails a
    check, whatever the rows after it are, and [load_index] passes it on
    with the loader unchanged. *)
Theorem first_offending_row_decides self good row rest e :
  is_cached self = false ->
  Forall (fun r => row_error self r = None) good ->
  row_error self row = Some e ->
  load_index self (DbRows (good ++ row :: rest)) = (inl e, self).
Proof.
  intros Hc Hgood Hrow.
  rewrite (load_index_miss _ _ _ _ Hc).
  by rewrite (build_index_first_error _ _ _ _ _ Hgood Hrow).
Qed.

(** X3: after a build, ordinal [i] stands for the [i]-th row of the
    storage: the ordinal mapping gives its key and the index holds its
    decoded vector; the payload store holds, under every key, the payload
    of the last row with that key. *)
Theorem build_follows_storage_order self rows ix es i2e :
  build_index self rows = inr (ix, es, i2e) ->
  (forall i row,
     rows !! i = Some row ->
     i2e !! Z.of_nat i = Some (error_id row) /\
     exists v, faiss_xb ix !! i = Some v /\ decodes_to self row v) /\
  (forall k,
     es !! k = payload_of <$> last (filter (fun r => error_id r = k) rows)).
Proof.
  intros Hb. split.
  - apply build_index_inr in Hb as (_ & _ & Hvs & _ & Hm).
    intros i row Hi. split.
    + rewrite Hm, decide_True, Nat2Z.id.
      * by rewrite list_lookup_fmap, Hi.
      * apply lookup_lt_Some in Hi. lia.
    + destruct (Forall2_lookup_l _ _ _ _ _ Hvs Hi) as (v & Hv & Hdec).
      by exists v.
  - unfold build_index in Hb.
    destruct rows as [|row rest]; [discriminate|].
    destruct (load_rows self 0 (row :: rest) build_acc_empty)
      as [e|acc] eqn:Hl; simpl in Hb; [discriminate|].
    destruct (IndexFlatIP_add (IndexFlatIP_new (embedding_dim self))
                (embeddings_list acc)) as [e|ix']; simpl in Hb;
      [discriminate|].
    injection Hb as _ <- _. intros k.
    rewrite (load_rows_store _ _ _ _ _ Hl k).
    destruct (last (filter (fun r => error_id r = k) (row :: rest)));
      [done | apply lookup_empty].
Qed.

End MoreLoaderProperties.

(** ** More on the polling loop and the reload endpoint *)

Lemma str_prefix_app_stop c sub s t :
  has_char c sub = false ->
  String.prefix sub (s +:+ String c t) = true ->
  String.prefix sub s = true.
Proof.
  revert sub. induction s as [|a s IH]; intros [|x sub] Hc H;
    try apply str_prefix_nil.
  - simpl in Hc. apply orb_false_iff in Hc as [Hx _].
    change ("" +:+ String c t) with (String c t) in H.
    rewrite str_prefix_cons_ne in H; [done|].
    intros ->. by rewrite Ascii.eqb_refl in Hx.
  - simpl in Hc. apply orb_false_iff in Hc as [_ Hc].
    change (String a s +:+ String c t) with (String a (s +:+ String c t)) in H.
    simpl in *. destruct (ascii_dec x a); [by eapply IH | done].
Qed.

(** A separator that does not occur in [sub] keeps an occurrence of [sub]
    from running over the end of [s]. *)
Lemma contains_app_stop c sub s t :
  has_char c sub = false ->
  contains sub s = false ->
  contains sub (String c t) = false ->
  contains sub (s +:+ String c t) = false.
Proof.
  intros Hc Hs Ht. induction s as [|a s IH]; [done|].
  cbn [contains] in Hs. apply orb_false_iff in Hs as [Hp Hs].
  change (String a s +:+ String c t) with (String a (s +:+ String c t)).
  cbn [contains]. rewrite (IH Hs), orb_false_r.
  destruct (String.prefix sub (String a (s +:+ String c t))) eqn:E; [|done].
  change (String a (s +:+ String c t)) with (String a s +:+ String c t) in E.
  apply (str_prefix_app_stop c sub (String a s) t Hc) in E. congruence.
Qed.

Lemma contains_skip_prefix c sub a s :
  has_char c a = false ->
  contains (String c sub) (a +:+ s) = contains (String c sub) s.
Proof.
  intros Ha. induction a as [|x a IH]; [done|].
  simpl in Ha. apply orb_false_iff in Ha as [Hx Ha].
  change (String x a +:+ s) with (String x (a +:+ s)).
  cbn [contains]. rewrite (IH Ha), str_prefix_cons_ne; [done|].
  intros ->. by rewrite Ascii.eqb_refl in Hx.
Qed.

(** A message that names a key between a text without [N] and a colon
    contains the marker of the polling loop exactly when the key does. *)
Lemma message_with_key_retried a eid b :
  has_char "N" a = false ->
  has_char "N" b = false ->
  contains "No embeddings found" (a +:+ eid +:+ String ":" b)
    = contains "No embeddings found" eid.
Proof.
  intros Ha Hb. rewrite (contains_skip_prefix _ _ a _ Ha).
  destruct (contains "No embeddings found" eid) eqn:E.
  - by apply contains_app_r.
  - apply contains_app_stop; [reflexivity | done |].
    apply contains_needs_first_char. simpl. by rewrite Hb.
Qed.

(** The texts of the messages hold no [N]. *)
Ltac no_N :=
  repeat (cbn [has_char Ascii.eqb Bool.eqb orb andb];
          rewrite ?has_char_app, ?has_char_N_str_Z);
  reflexivity.

Section MoreServiceProperties.

Variable json_loads : string -> option pyvalue.
Variable literal_eval : string -> option pyvalue.

Local Abbreviation parse_embedding :=
  (parse_embedding json_loads literal_eval).
Local Abbreviation build_index := (build_index json_loads literal_eval).
Local Abbreviation load_index := (load_index json_loads literal_eval).
Local Abbreviation reload_index := (reload_index json_loads literal_eval).
Local Abbreviation row_error := (row_error json_loads literal_eval).
Local Abbreviation poll_loop := (poll_loop json_loads literal_eval).
Local Abbreviation load_index_background :=
  (load_index_background json_loads literal_eval).
Local Abbreviation reload_index_endpoint :=
  (reload_index_endpoint json_loads literal_eval).

(** The messages of the two [ValueError]s that name the key of the row
    hold the marker of the polling loop exactly when the key does. *)
Lemma parse_message_retried eid :
  contains "No embeddings found"
    ("Could not parse embedding for " +:+ eid +:+ ": invalid format")
  = contains "No embeddings found" eid.
Proof. by apply message_with_key_retried. Qed.

Lemma shape_message_retried eid a b :
  contains "No embeddings found"
    ("Invalid embedding shape for " +:+ eid +:+ ": expected " +:+ str_Z a
     +:+ ", got " +:+ str_Z b)
  = contains "No embeddings found" eid.
Proof. apply message_with_key_retried; [reflexivity | no_N]. Qed.

(** One poll that finds a first offending row: the loop sleeps and polls
    again exactly when the exception of that row is one it retries. *)
Lemma poll_row_error self storage elapsed fuel good row rest e :
  index self = None ->
  elapsed < max_wait_time ->
  storage elapsed = DbRows (good ++ row :: rest) ->
  Forall (fun r => row_error self r = None) good ->
  row_error self row = Some e ->
  poll_loop (S fuel) storage elapsed self =
    if retried e
    then poll_loop fuel storage (elapsed + wait_interval) self
    else Some (ExitFailed e, self).
Proof.
  intros Hidx Hlt Hst Hgood Hrow.
  rewrite (poll_loop_step _ _ _ _ _ _ Hlt), Hst.
  rewrite (load_index_miss _ _ _ _ (is_cached_false_index_None _ Hidx)).
  rewrite (build_index_first_error _ _ _ _ _ _ _ Hgood Hrow).
  by destruct e.
Qed.

(** X4: a row whose declared dimension is not the configured one ends the
    polling at once: the loop returns without another poll and the loader
    stays without index. *)
Theorem dimension_mismatch_stops_polling self storage elapsed fuel good row
    rest :
  index self = None ->
  elapsed < max_wait_time ->
  storage elapsed = DbRows (good ++ row :: rest) ->
  Forall (fun r => row_error self r = None) good ->
  embedding_dim_db row <> embedding_dim self ->
  poll_loop (S fuel) storage elapsed self =
    Some (ExitFailed
            (ValueError ("Embedding dimension mismatch: DB has "
                         +:+ str_Z (embedding_dim_db row) +:+ ", expected "
                         +:+ str_Z (embedding_dim self))),
          self).
Proof.
  intros Hidx Hlt Hst Hgood Hdim.
  apply Z.eqb_neq in Hdim.
  rewrite (poll_row_error self storage elapsed fuel good row rest
             (ValueError ("Embedding dimension mismatch: DB has "
                          +:+ str_Z (embedding_dim_db row) +:+ ", expected "
                          +:+ str_Z (embedding_dim self)))); try done.
  - cbn [retried]. by rewrite dimension_message_not_retried.
  - unfold row_error, load_row. by rewrite Hdim.
Qed.

(** X5: a row of the declared dimension that fails a later check ends the
    polling or is polled again according to the exception it raises.  A
    text that neither decoder reads, and a flat vector of another length,
    raise a [ValueError] that names the key: the loop ends unless the key
    holds the text "No embeddings found".  A NULL embedding and a text that
    decodes to a scalar raise [IndexError], which the loop sleeps on and
    polls again.  A decoded value the conversion refuses raises the
    exception of the conversion. *)
Theorem undecodable_row_polling self storage elapsed fuel good row rest e :
  index self = None ->
  elapsed < max_wait_time ->
  storage elapsed = DbRows (good ++ row :: rest) ->
  Forall (fun r => row_error self r = None) good ->
  embedding_dim_db row = embedding_dim self ->
  row_error self row = Some e ->
  poll_loop (S fuel) storage elapsed self =
    (if retried e
     then poll_loop fuel storage (elapsed + wait_interval) self
     else Some (ExitFailed e, self)) /\
  match parse_embedding (error_id row) (embedding row) with
  | inl _ | inr (PyNumbers _) =>
      (exists msg, e = ValueError msg) /\
      retried e = contains "No embeddings found" (error_id row)
  | inr PyScalar =>
      e = OtherException "tuple index out of range" /\ retried e = true
  | inr (PyOther e') => e = e'
  end.
Proof.
  intros Hidx Hlt Hst Hgood Hdim Hrow.
  split; [by eapply poll_row_error|].
  revert Hrow. unfold row_error, load_row, decode_embedding.
  rewrite Hdim, Z.eqb_refl. cbn [negb].
  destruct (parse_embedding (error_id row) (embedding row)) as [e0|[v| |e0]]
    eqn:Hp; cbn [bind_exn np_array_float32].
  - intros [= <-]. split.
    + unfold parse_embedding in Hp.
      destruct (embedding row) as [v|s|]; [discriminate| |discriminate].
      destruct (json_loads s); [discriminate|].
      destruct (literal_eval s); [discriminate|].
      injection Hp as <-. by eexists.
    + unfold parse_embedding in Hp.
      destruct (embedding row) as [v|s|]; [discriminate| |discriminate].
      destruct (json_loads s); [discriminate|].
      destruct (literal_eval s); [discriminate|].
      injection Hp as <-. apply parse_message_retried.
  - destruct (negb (Z.of_nat (length v) =? embedding_dim self));
      [|discriminate].
    intros [= <-]. split; [by eexists|]. apply shape_message_retried.
  - by intros [= <-].
  - by intros [= <-].
Qed.

Lemma retried_result_load self db :
  index self = None ->
  retried_result db ->
  exists e, load_index self db = (inl e, self) /\ retried e = true.
Proof.
  intros Hidx Hdb.
  rewrite (load_index_miss _ _ _ _ (is_cached_false_index_None _ Hidx)).
  destruct Hdb as [-> | (e & -> & He)]; eauto.
Qed.

Lemma poll_loop_retries storage self : forall (n fuel : nat) elapsed,
  index self = None ->
  elapsed + wait_interval * Z.of_nat n <= max_wait_time ->
  (forall k : nat,
     (k < n)%nat ->
     retried_result (storage (elapsed + wait_interval * Z.of_nat k))) ->
  poll_loop (n + fuel) storage elapsed self
    = poll_loop fuel storage (elapsed + wait_interval * Z.of_nat n) self.
Proof.
  induction n as [|n IH]; intros fuel elapsed Hidx Hle Hret.
  - simpl. by rewrite Z.mul_0_r, Z.add_0_r.
  - assert (elapsed < max_wait_time) as Hlt
      by (unfold wait_interval in *; lia).
    change (S n + fuel)%nat with (S (n + fuel)).
    rewrite (poll_loop_step _ _ _ _ _ _ Hlt).
    destruct (retried_result_load self (storage elapsed) Hidx)
      as (e & -> & He).
    { specialize (Hret 0%nat ltac:(lia)).
      by rewrite Z.mul_0_r, Z.add_0_r in Hret. }
    assert (poll_loop (n + fuel) storage (elapsed + wait_interval) self
            = poll_loop fuel storage
                (elapsed + wait_interval * Z.of_nat (S n)) self) as Hgo.
    { rewrite IH; [f_equal; lia | done | lia |].
      intros k Hk. specialize (Hret (S k) ltac:(lia)).
      by replace (elapsed + wait_interval + wait_interval * Z.of_nat k)
           with (elapsed + wait_interval * Z.of_nat (S k)) by lia. }
    destruct e as [msg|msg|msg|msg]; try done.
    simpl in He. by rewrite He.
Qed.

(** X6: when the first [n] polls fail in a way that is retried and the
    storage then holds rows that pass the checks, the background loop
    loads them at that poll, [5 n] seconds after its start, and the
    service reports their number. *)
Theorem first_good_poll_is_loaded storage (n : nat) rows ix es i2e c url
    rag_model_name :
  let model := default "nomic-ai/nomic-embed-text-v1.5" rag_model_name in
  (n < 120)%nat ->
  (forall k : nat,
     (k < n)%nat -> retried_result (storage (wait_interval * Z.of_nat k))) ->
  storage (wait_interval * Z.of_nat n) = DbRows rows ->
  build_index (RAGIndexLoader_init model) rows = inr (ix, es, i2e) ->
  exists self,
    load_index_background 120 (Some (String c url)) rag_model_name storage
      None = Some (ExitLoaded, Some self) /\
    index self = Some ix /\
    error_store self = es /\
    index_to_error_id self = i2e /\
    health_check (Some self) = Healthy (length rows).
Proof.
  intros model Hn Hret Hst Hb.
  unfold load_index_background. fold model.
  replace 120%nat with (n + S (119 - n))%nat by lia.
  rewrite (poll_loop_retries storage (RAGIndexLoader_init model) n).
  - rewrite Z.add_0_l, poll_loop_step
      by (unfold wait_interval, max_wait_time; lia).
    rewrite Hst.
    rewrite (load_index_miss _ _ (RAGIndexLoader_init model) _ eq_refl), Hb.
    simpl. eexists. split; [done|]. repeat split.
    apply build_index_inr in Hb as (_ & _ & Hvs & _).
    unfold health_check, ntotal. simpl.
    by rewrite (Forall2_length _ _ _ Hvs).
  - done.
  - unfold wait_interval, max_wait_time. lia.
  - intros k Hk. rewrite Z.add_0_l. by apply Hret.
Qed.

(** X7: a reload that succeeds reports the number of rows the storage
    holds, whatever the loader held before, and the probes report that
    number afterwards. *)
Theorem reload_reports_row_count self rows n g :
  reload_index_endpoint (Some self) (DbRows rows) = (inr n, g) ->
  n = length rows /\
  health_check g = Healthy (length rows) /\
  readiness_check g = inr (Ready (length rows)).
Proof.
  unfold reload_index_endpoint. rewrite reload_index_unfold.
  rewrite (load_index_miss _ _ _ _ (is_cached_cleared self)).
  destruct (build_index (cleared self) rows) as [e|[[ix es] i2e]] eqn:Hb;
    [discriminate|].
  simpl. intros [= <- <-].
  apply build_index_inr in Hb as (_ & _ & Hvs & _).
  unfold ntotal. simpl. by rewrite (Forall2_length _ _ _ Hvs).
Qed.

(** X8: a reload that fails answers with an HTTP error and leaves the
    service not ready: status 503 and nothing changed when no loader
    exists, status 500 with the text of the exception and a loader without
    index otherwise. *)
Theorem reload_failure_response g db status detail g' :
  reload_index_endpoint g db = (inl (mkHTTPException status detail), g') ->
  readiness_check g' = inl (mkHTTPException 503 "Index not loaded") /\
  ((g = None /\ g' = None /\ status = 503 /\
    detail = "Index loader not initialized") \/
   (exists self e,
      g = Some self /\ g' = Some (cleared self) /\ status = 500 /\
      (reload_index self db).1 = inl e /\
      detail = "Error reloading index: " +:+ str_exn e)).
Proof.
  unfold reload_index_endpoint. destruct g as [self|].
  - destruct (reload_index self db) as [[e|snap] self'] eqn:Hr;
      [|discriminate].
    intros [= <- <- <-]. pose proof Hr as Hr'.
    rewrite reload_index_unfold in Hr'.
    apply load_index_raise_keeps_self in Hr'. subst self'.
    split; [done|]. right. exists self, e. by rewrite Hr.
  - intros [= <- <- <-]. split; [done|]. by left.
Qed.

(** *** The loop as a whole *)

Variable create_async_engine : string -> option exn.

Local Abbreviation poll_retried := (poll_retried json_loads literal_eval).
Local Abbreviation RAGIndexLoader_new :=
  (RAGIndexLoader_new create_async_engine).
Local Abbreviation load_index_background_task :=
  (load_index_background_task json_loads literal_eval create_async_engine).

(** One iteration of the loop. *)
Lemma poll_loop_iteration fuel storage elapsed self :
  elapsed < max_wait_time ->
  poll_loop (S fuel) storage elapsed self =
    match load_index self (storage elapsed) with
    | (inr _, self') => Some (ExitLoaded, self')
    | (inl e, _) =>
        if retried e
        then poll_loop fuel storage (elapsed + wait_interval) self
        else Some (ExitFailed e, self)
    end.
Proof.
  intros Hlt. rewrite (poll_loop_step _ _ _ _ _ _ Hlt).
  destruct (load_index self (storage elapsed)) as [[e|snap] self1] eqn:Hl;
    [|done].
  apply load_index_raise_keeps_self in Hl as ->. by destruct e.
Qed.

(** The loop consults the storage at the times of its polls only. *)
Lemma poll_loop_ext storage storage' : forall fuel elapsed self,
  (forall k : nat,
     (k < fuel)%nat ->
     storage' (elapsed + wait_interval * Z.of_nat k)
       = storage (elapsed + wait_interval * Z.of_nat k)) ->
  poll_loop fuel storage' elapsed self = poll_loop fuel storage elapsed self.
Proof.
  induction fuel as [|fuel IH]; intros elapsed self Hsame; [done|].
  destruct (Z.lt_ge_cases elapsed max_wait_time) as [Hlt|Hge].
  2:{ by rewrite !poll_loop_timed_out. }
  rewrite !(poll_loop_iteration _ _ _ _ Hlt).
  pose proof (Hsame 0%nat ltac:(lia)) as H0.
  rewrite Z.mul_0_r, Z.add_0_r in H0. rewrite H0.
  rewrite IH; [done|].
  intros k Hk. specialize (Hsame (S k) ltac:(lia)).
  by replace (elapsed + wait_interval + wait_interval * Z.of_nat k)
       with (elapsed + wait_interval * Z.of_nat (S k)) by lia.
Qed.

(** The loop gives up exactly when every poll it makes raises an
    exception it retries. *)
Lemma poll_loop_timed_out_iff storage self : forall fuel elapsed,
  max_wait_time - elapsed <= wait_interval * Z.of_nat fuel ->
  poll_loop fuel storage elapsed self = Some (ExitTimedOut, self) <->
  (forall k : nat,
     elapsed + wait_interval * Z.of_nat k < max_wait_time ->
     poll_retried self (storage (elapsed + wait_interval * Z.of_nat k))).
Proof.
  induction fuel as [|fuel IH]; intros elapsed Hfuel.
  - split; [|intros _; apply poll_loop_timed_out;
               unfold wait_interval in *; lia].
    intros _ k Hk. unfold wait_interval in *. lia.
  - destruct (Z.lt_ge_cases elapsed max_wait_time) as [Hlt|Hge].
    2:{ split; [|intros _; by apply poll_loop_timed_out].
        intros _ k Hk. unfold wait_interval in *. lia. }
    assert (max_wait_time - (elapsed + wait_interval)
            <= wait_interval * Z.of_nat fuel) as Hfuel'
      by (unfold wait_interval in *; lia).
    rewrite (poll_loop_iteration _ _ _ _ Hlt). split.
    + intros Hrun k Hk.
      destruct (load_index self (storage elapsed)) as [[e|snap] self1] eqn:Hl;
        [|discriminate].
      destruct (retried e) eqn:He; [|discriminate].
      destruct k as [|k].
      * rewrite Z.mul_0_r, Z.add_0_r. exists e. by rewrite Hl.
      * pose proof (proj1 (IH _ Hfuel') Hrun) as Hrest.
        replace (elapsed + wait_interval * Z.of_nat (S k))
          with (elapsed + wait_interval + wait_interval * Z.of_nat k) by lia.
        apply Hrest. lia.
    + intros Hall.
      destruct (Hall 0%nat) as (e & He & Hret).
      { by rewrite Z.mul_0_r, Z.add_0_r. }
      rewrite Z.mul_0_r, Z.add_0_r in He.
      destruct (load_index self (storage elapsed)) as [[e'|snap] self1];
        simpl in He; [|discriminate].
      injection He as ->. rewrite Hret.
      apply (proj2 (IH _ Hfuel')). intros k Hk.
      replace (elapsed + wait_interval + wait_interval * Z.of_nat k)
        with (elapsed + wait_interval * Z.of_nat (S k)) by lia.
      apply Hall. lia.
Qed.

Lemma poll_retried_zero_rows self :
  index self = None -> poll_retried self (DbRows []).
Proof.
  intros Hidx. eexists.
  by rewrite (load_index_miss _ _ _ _ (is_cached_false_index_None _ Hidx)).
Qed.

(** A reload builds on a loader the loop has left without index. *)
Lemma reload_after_give_up model rows snap :
  build_index (RAGIndexLoader_init model) rows = inr snap ->
  health_check
    (reload_index_endpoint (Some (RAGIndexLoader_init model))
       (DbRows rows)).2 = Healthy (length rows).
Proof.
  destruct snap as [[ix es] i2e]. intros Hb.
  unfold reload_index_endpoint. rewrite reload_index_unfold.
  rewrite (load_index_miss _ _ _ _ (is_cached_cleared _)).
  change (cleared (RAGIndexLoader_init model))
    with (RAGIndexLoader_init model).
  rewrite Hb. simpl.
  apply build_index_inr in Hb as (_ & _ & Hvs & _).
  unfold ntotal. by rewrite <- (Forall2_length _ _ _ Hvs).
Qed.

(** C3: a build attempt that finds zero rows raises the [ValueError]
    whose message the background loop recognises as "no data yet", and
    leaves the loader without index, so the service keeps reporting not
    ready.  The loop raises nothing: it sleeps one interval and polls
    again, and what that next poll finds decides how it goes on: rows that
    build are loaded and served, an exception is classified in its turn;
    with zero rows at every poll the loop gives up when the time is over,
    the loader still without index. *)
Theorem zero_rows_is_retried self storage elapsed fuel :
  index self = None ->
  0 <= elapsed < max_wait_time ->
  storage elapsed = DbRows [] ->
  load_index self (storage elapsed)
    = (inl (ValueError
              "No embeddings found in PostgreSQL. Run init job first."),
       self) /\
  poll_loop (S fuel) storage elapsed self
    = poll_loop fuel storage (elapsed + wait_interval) self /\
  readiness_check (Some self)
    = inl (mkHTTPException 503 "Index not loaded") /\
  health_check (Some self) = Unhealthy "Index not loaded" /\
  (exists exit self',
     poll_loop 120 storage elapsed self = Some (exit, self')) /\
  (elapsed + wait_interval < max_wait_time ->
   poll_loop (S (S fuel)) storage elapsed self =
     match load_index self (storage (elapsed + wait_interval)) with
     | (inr _, self') => Some (ExitLoaded, self')
     | (inl e, _) =>
         if retried e
         then poll_loop fuel storage
                (elapsed + wait_interval + wait_interval) self
         else Some (ExitFailed e, self)
     end) /\
  (forall rows ix es i2e,
     elapsed + wait_interval < max_wait_time ->
     storage (elapsed + wait_interval) = DbRows rows ->
     build_index self rows = inr (ix, es, i2e) ->
     exists self',
       poll_loop (S (S fuel)) storage elapsed self
         = Some (ExitLoaded, self') /\
       index self' = Some ix /\
       error_store self' = es /\
       index_to_error_id self' = i2e /\
       health_check (Some self') = Healthy (length rows)) /\
  (max_wait_time <= elapsed + wait_interval ->
   poll_loop (S fuel) storage elapsed self = Some (ExitTimedOut, self)) /\
  ((forall k : nat,
      elapsed + wait_interval * Z.of_nat k < max_wait_time ->
      storage (elapsed + wait_interval * Z.of_nat k) = DbRows []) ->
   poll_loop 120 storage elapsed self = Some (ExitTimedOut, self)).
Proof.
  intros Hidx [H0 Hlt] Hst.
  pose proof (is_cached_false_index_None _ Hidx) as Hc.
  assert (load_index self (storage elapsed)
          = (inl (ValueError
                    "No embeddings found in PostgreSQL. Run init job first."),
             self)) as Hload.
  { rewrite (load_index_miss _ _ _ _ Hc). by rewrite Hst. }
  assert (forall fuel',
            poll_loop (S fuel') storage elapsed self
            = poll_loop fuel' storage (elapsed + wait_interval) self)
    as Hstep.
  { intros fuel'. by rewrite (poll_loop_iteration _ _ _ _ Hlt), Hload. }
  split; [done|]. split; [apply Hstep|].
  split; [unfold readiness_check; by rewrite Hidx|].
  split; [unfold health_check; by rewrite Hidx|].
  split.
  { destruct (poll_loop_returns json_loads literal_eval storage 120 elapsed self)
      as (x & s & H & _).
    - unfold max_wait_time, wait_interval. lia.
    - done.
    - by exists x, s. }
  split.
  { intros Hnext. by rewrite Hstep, (poll_loop_iteration _ _ _ _ Hnext). }
  split.
  { intros rows ix es i2e Hnext Hrows Hb.
    rewrite Hstep, (poll_loop_iteration _ _ _ _ Hnext), Hrows.
    rewrite (load_index_miss _ _ _ _ Hc), Hb.
    eexists. split; [done|]. repeat split.
    apply build_index_inr in Hb as (_ & _ & Hvs & _).
    unfold health_check, ntotal. simpl.
    by rewrite (Forall2_length _ _ _ Hvs). }
  split.
  { intros Hlast. rewrite Hstep. by apply poll_loop_timed_out. }
  intros Hall. apply poll_loop_timed_out_iff.
  - unfold max_wait_time, wait_interval. lia.
  - intros k Hk. rewrite (Hall k Hk). by apply poll_retried_zero_rows.
Qed.

(** C6: the background loading loop returns after at most 120 polls, one
    per 5 seconds of the 600 it waits, and never by an exception: it
    consults the storage at the times 0, 5, ..., 595 and at no other; it
    gives up exactly when each of these polls raises an exception it
    retries; unless it has loaded an index it leaves the loader as it was
    constructed, the service keeps reporting not ready, and an explicit
    reload that builds makes it ready.  The one exception that ends the
    task is that of the constructor of the loader, raised before the loop
    is entered: the global stays unassigned and the service not ready. *)
Theorem background_loop_terminates storage database_url rag_model_name :
  let model := default "nomic-ai/nomic-embed-text-v1.5" rag_model_name in
  let self0 := RAGIndexLoader_init model in
  (exists exit self',
     poll_loop 120 storage 0 self0 = Some (exit, self') /\
     match exit with
     | ExitLoaded => exists n, health_check (Some self') = Healthy n
     | ExitNoDatabaseUrl => False
     | ExitFailed _ | ExitTimedOut => self' = self0
     end) /\
  (poll_loop 120 storage 0 self0 = Some (ExitTimedOut, self0) <->
   forall k : nat,
     (k < 120)%nat ->
     poll_retried self0 (storage (wait_interval * Z.of_nat k))) /\
  (forall storage',
     (forall k : nat,
        (k < 120)%nat ->
        storage' (wait_interval * Z.of_nat k)
          = storage (wait_interval * Z.of_nat k)) ->
     poll_loop 120 storage' 0 self0 = poll_loop 120 storage 0 self0) /\
  exists outcome g,
    load_index_background_task 120 database_url rag_model_name storage None
      = Some (outcome, g) /\
    match outcome with
    | inl e =>
        (exists url,
           database_url = Some url /\
           create_async_engine (normalize_database_url url) = Some e) /\
        g = None /\
        health_check g = Unhealthy "Index not loaded" /\
        readiness_check g = inl (mkHTTPException 503 "Index not loaded") /\
        forall db,
          reload_index_endpoint g db
            = (inl (mkHTTPException 503 "Index loader not initialized"),
               None)
    | inr ExitLoaded =>
        exists self',
          poll_loop 120 storage 0 self0 = Some (ExitLoaded, self') /\
          g = Some self' /\
          exists n, health_check g = Healthy n
    | inr ExitNoDatabaseUrl =>
        (database_url = None \/ database_url = Some EmptyString) /\
        g = None /\
        health_check g = Unhealthy "Index not loaded" /\
        readiness_check g = inl (mkHTTPException 503 "Index not loaded")
    | inr exit =>
        poll_loop 120 storage 0 self0 = Some (exit, self0) /\
        g = Some self0 /\
        health_check g = Unhealthy "Index not loaded" /\
        readiness_check g = inl (mkHTTPException 503 "Index not loaded") /\
        forall rows snap,
          build_index self0 rows = inr snap ->
          health_check (reload_index_endpoint g (DbRows rows)).2
            = Healthy (length rows)
    end.
Proof.
  intros model self0.
  destruct (poll_loop_returns json_loads literal_eval storage 120 0 self0)
    as (exit & self' & Hrun & Hexit).
  { unfold max_wait_time, wait_interval. lia. }
  { done. }
  split.
  { exists exit, self'. split; [done|].
    destruct exit as [| |e|]; try done.
    destruct Hexit as [ix Hix]. exists (ntotal ix).
    unfold health_check. by rewrite Hix. }
  split.
  { rewrite poll_loop_timed_out_iff
      by (unfold max_wait_time, wait_interval; lia).
    split.
    - intros H k Hk. specialize (H k). rewrite Z.add_0_l in H.
      apply H. unfold max_wait_time, wait_interval. lia.
    - intros H k Hk. rewrite Z.add_0_l in *. apply H.
      unfold max_wait_time, wait_interval in Hk. lia. }
  split.
  { intros storage' Hsame. apply poll_loop_ext.
    intros k Hk. rewrite Z.add_0_l. by apply Hsame. }
  unfold load_index_background_task, RAGIndexLoader_new. fold model self0.
  destruct database_url as [[|c url]|].
  - exists (inr ExitNoDatabaseUrl), None. split; [done|].
    split; [by right | done].
  - destruct (create_async_engine (normalize_database_url (String c url)))
      as [e|] eqn:He.
    + exists (inl e), None. split; [done|].
      split; [by exists (String c url) | done].
    + exists (inr exit), (Some self'). rewrite Hrun. split; [done|].
      destruct exit as [| |e|]; [done | | |].
      * exists self'. repeat split. destruct Hexit as [ix Hix].
        exists (ntotal ix). unfold health_check. by rewrite Hix.
      * subst self'. repeat split. apply reload_after_give_up.
      * subst self'. repeat split. apply reload_after_give_up.
  - exists (inr ExitNoDatabaseUrl), None. split; [done|].
    split; [by left | done].
Qed.

End MoreServiceProperties.

(** ** More on the search *)

Lemma search_unfold self ix q top_k top_n threshold :
  Z.of_nat (length q) = faiss_d ix ->
  search self ix q top_k top_n threshold =
    bind_exn (collect_results self threshold (reported ix q top_k) [])
      (fun results => inr (take top_n results)).
Proof.
  intros Hq. unfold search, IndexFlatIP_search, reported.
  rewrite (proj2 (Z.eqb_eq _ _) Hq). simpl. by rewrite zip_fst_snd.
Qed.

Lemma search_wrong_dimension self ix q top_k top_n threshold :
  Z.of_nat (length q) <> faiss_d ix ->
  search self ix q top_k top_n threshold
    = inl (AssertionError "assert d == self.d").
Proof.
  intros Hq. unfold search, IndexFlatIP_search.
  by rewrite (proj2 (Z.eqb_neq _ _) Hq).
Qed.

Lemma collect_results_cons self threshold c cands results :
  collect_results self threshold (c :: cands) results =
    match result_for self threshold c with
    | inl e => inl e
    | inr None => collect_results self threshold cands results
    | inr (Some r) => collect_results self threshold cands (results ++ [r])
    end.
Proof.
  destruct c as [idx sim]. unfold result_for. simpl.
  destruct (idx =? -1); [done|]. destruct (Qltb sim threshold); [done|].
  destruct (index_to_error_id self !! idx) as [eid|]; [|done].
  by destruct (error_store self !! eid).
Qed.

Lemma result_for_kept self threshold c :
  match result_for self threshold c with
  | inl _ => kept threshold c
  | inr None => ~ kept threshold c
  | inr (Some r) => kept threshold c /\ is_result_of self c r
  end.
Proof.
  unfold result_for, kept, is_result_of.
  destruct (fst c =? -1) eqn:Hi.
  { apply Z.eqb_eq in Hi. by intros [? _]. }
  apply Z.eqb_neq in Hi.
  destruct (Qltb (snd c) threshold) eqn:Hs; [by intros [_ ?]|].
  destruct (index_to_error_id self !! fst c) as [eid|]; [|done].
  destruct (error_store self !! eid) as [error_data|] eqn:He; [|done].
  split; [done|]. by exists eid, error_data.
Qed.

Lemma is_result_of_functional self c r1 r2 :
  is_result_of self c r1 -> is_result_of self c r2 -> r1 = r2.
Proof.
  intros (e1 & d1 & Hi1 & He1 & ->) (e2 & d2 & Hi2 & He2 & ->).
  rewrite Hi1 in Hi2. injection Hi2 as <-.
  rewrite He1 in He2. by injection He2 as <-.
Qed.

(** A result loop that raised nothing has appended the results of the
    candidates it kept. *)
Lemma collect_results_inr self threshold cands : forall results out,
  collect_results self threshold cands results = inr out ->
  exists rs,
    out = results ++ rs /\
    Forall2 (is_result_of self) (filter (kept threshold) cands) rs.
Proof.
  induction cands as [|c cands IH]; intros results out.
  - simpl. intros [= <-]. exists []. by rewrite app_nil_r.
  - rewrite collect_results_cons.
    pose proof (result_for_kept self threshold c) as Hc.
    destruct (result_for self threshold c) as [e|[r|]]; [discriminate| |].
    + intros (rs & -> & Hrs)%IH. destruct Hc as [Hk Hr].
      exists (r :: rs). split; [by rewrite <- app_assoc|].
      rewrite filter_cons_True by done. by constructor.
    + intros (rs & -> & Hrs)%IH. exists rs. split; [done|].
      by rewrite filter_cons_False.
Qed.

(** The loop raises nothing when the dictionaries answer for the
    candidates it keeps. *)
Lemma collect_results_kept self threshold cands : forall results,
  Forall (fun c => kept threshold c -> exists r, is_result_of self c r)
    cands ->
  exists out, collect_results self threshold cands results = inr out.
Proof.
  induction cands as [|c cands IH]; intros results Hall; [by eexists|].
  apply Forall_cons in Hall as [Hc Hall].
  rewrite collect_results_cons.
  pose proof (result_for_kept self threshold c) as Hk.
  destruct (result_for self threshold c) as [e|[r|]] eqn:Hr; [|by apply IH..].
  destruct (Hc Hk) as (r & eid & error_data & Hi & He & _).
  unfold result_for in Hr. destruct Hk as [Hk1 Hk2].
  rewrite (proj2 (Z.eqb_neq _ _) Hk1), Hk2, Hi, He in Hr. discriminate.
Qed.

Lemma collect_results_skipped self threshold cands results :
  Forall (fun c => ~ kept threshold c) cands ->
  collect_results self threshold cands results = inr results.
Proof.
  induction 1 as [|c cands Hc _ IH]; [done|].
  rewrite collect_results_cons.
  pose proof (result_for_kept self threshold c) as Hk.
  destruct (result_for self threshold c) as [e|[r|]]; [done | | done].
  by destruct Hk.
Qed.

Lemma reported_kept ix q top_k threshold :
  filter (kept threshold) (reported ix q top_k)
    = filter (kept threshold) (take top_k (sort_cands (scored_rows ix q))).
Proof.
  unfold reported. by rewrite filter_app, filter_kept_pads, app_nil_r.
Qed.

Lemma reported_candidate ix q top_k c :
  c ∈ take top_k (sort_cands (scored_rows ix q)) ->
  exists (i : nat) v, faiss_xb ix !! i = Some v /\ c = (Z.of_nat i, dot q v).
Proof.
  intros Hc.
  assert (c ∈ scored_rows ix q) as Hin.
  { rewrite <- (sort_cands_Permutation (scored_rows ix q)).
    eapply elem_of_sublist; [exact Hc | apply sublist_take]. }
  apply elem_of_lookup_imap in Hin as (i & v & -> & Hv). by exists i, v.
Qed.

(** On a list sorted by descending score, a higher threshold keeps a
    prefix of what a lower one keeps. *)
Lemma kept_prefix_sorted (t1 t2 : Q) l :
  (t1 <= t2)%Q ->
  StronglySorted not_after l ->
  filter (kept t2) l `prefix_of` filter (kept t1) l.
Proof.
  intros Ht. induction 1 as [|x l Hl IH Hx]; [done|].
  destruct (decide (kept t2 x)) as [[H1 H2]|Hn].
  - rewrite !filter_cons_True; [by apply prefix_cons | | done].
    split; [done|]. apply Qltb_false. apply Qltb_false in H2. lra.
  - rewrite (filter_cons_False _ _ l Hn).
    destruct (decide (fst x = -1)) as [Hm|Hm].
    + rewrite filter_cons_False by (by intros [? _]). done.
    + assert (filter (kept t2) l = []) as ->; [|apply prefix_nil].
      assert (snd x < t2)%Q as Hlt.
      { apply Qltb_true. destruct (Qltb (snd x) t2) eqn:E; [done|].
        by destruct Hn. }
      clear IH Hl. induction Hx as [|y l Hy Hx IH]; [done|].
      rewrite filter_cons_False; [done|]. intros [_ Hk%Qltb_false].
      apply not_after_score in Hy. lra.
Qed.

Lemma Forall2_functional_prefix {A B} (R : A -> B -> Prop) l1 l2 k1 k2 :
  (forall a b1 b2, R a b1 -> R a b2 -> b1 = b2) ->
  l1 `prefix_of` l2 -> Forall2 R l1 k1 -> Forall2 R l2 k2 ->
  k1 `prefix_of` k2.
Proof.
  intros Hfun [l ->] H1 H2.
  apply Forall2_app_inv_l in H2 as (k1' & k & H1' & _ & ->).
  assert (k1 = k1') as <-; [|by exists k].
  clear -Hfun H1 H1'. revert k1' H1'.
  induction H1 as [|a b l1 k1 Hab _ IH]; intros k1' H1'.
  - by inversion H1'.
  - inversion H1' as [|? b' ? k' Hab' Hrest]; subst.
    f_equal; [by eapply Hfun | by apply IH].
Qed.

Lemma take_prefix_mono {A} (l1 l2 : list A) n :
  l1 `prefix_of` l2 -> take n l1 `prefix_of` take n l2.
Proof. intros [k ->]. rewrite take_app. by eexists. Qed.

(** X9: asking for fewer results gives the first results of the longer
    answer. *)
Theorem fewer_results_is_prefix g q top_k (top_n top_n' : nat) threshold
    results :
  (top_n <= top_n')%nat ->
  query_rag g q top_k top_n' threshold = inr results ->
  query_rag g q top_k top_n threshold = inr (take top_n results).
Proof.
  intros Hn. unfold query_rag. destruct g as [self|]; [|discriminate].
  destruct (index self) as [ix|]; [|discriminate].
  destruct (decide (Z.of_nat (length q) = faiss_d ix)) as [Hq|Hq].
  - rewrite !(search_unfold _ _ _ _ _ _ Hq).
    destruct (collect_results self threshold (reported ix q top_k) [])
      as [e|rs]; simpl; [discriminate|].
    intros [= <-]. by rewrite take_take, Nat.min_l.
  - by rewrite !(search_wrong_dimension _ _ _ _ _ _ Hq).
Qed.

(** A query that no row answers with a score up to the threshold: empty
    list, no error, no dictionary read. *)
Lemma dot_zero m v : dot (replicate m 0%Q) v = 0%Q.
Proof.
  unfold dot. change 0%Q with (Qred 0) at 3. apply Qred_complete.
  revert v. induction m as [|m IH]; intros [|x v]; simpl; try reflexivity.
  rewrite IH. ring.
Qed.

(** X12: raising the threshold only shortens the answer from its end: a
    query that succeeds still succeeds with a higher threshold, and its
    results are the first results of the former answer. *)
Theorem raising_threshold_truncates g q top_k top_n (t1 t2 : Q) results :
  (t1 <= t2)%Q ->
  query_rag g q top_k top_n t1 = inr results ->
  exists results',
    query_rag g q top_k top_n t2 = inr results' /\
    results' `prefix_of` results.
Proof.
  intros Ht. unfold query_rag. destruct g as [self|]; [|discriminate].
  destruct (index self) as [ix|]; [|discriminate].
  destruct (decide (Z.of_nat (length q) = faiss_d ix)) as [Hq|Hq].
  2:{ by rewrite !(search_wrong_dimension _ _ _ _ _ _ Hq). }
  rewrite !(search_unfold _ _ _ _ _ _ Hq).
  destruct (collect_results self t1 (reported ix q top_k) [])
    as [e|rs1] eqn:H1; simpl; [discriminate|].
  intros [= <-].
  apply collect_results_inr in H1 as (rs & -> & Hrs1). simpl in *.
  rewrite reported_kept in Hrs1.
  set (top := take top_k (sort_cands (scored_rows ix q))) in *.
  assert (StronglySorted not_after top) as Hsorted.
  { eapply StronglySorted_sublist; [apply sublist_take|].
    apply sort_cands_sorted. }
  assert (forall c, kept t2 c -> kept t1 c) as Hmono.
  { intros c [H1 H2]. split; [done|].
    apply Qltb_false. apply Qltb_false in H2. lra. }
  destruct (collect_results_kept self t2 (reported ix q top_k) [])
    as [rs2 H2].
  { unfold reported. fold top. apply Forall_app. split.
    - apply Forall_forall. intros c Hc Hk.
      assert (c ∈ filter (kept t1) top) as Hin
        by (apply list_elem_of_filter; auto).
      apply list_elem_of_lookup in Hin as [i Hi].
      destruct (Forall2_lookup_l _ _ _ _ _ Hrs1 Hi) as (r & _ & Hr).
      by exists r.
    - apply Forall_forall. intros c ->%elem_of_replicate_inv.
      by intros [? _]. }
  rewrite H2. simpl. eexists. split; [done|].
  apply collect_results_inr in H2 as (rs' & -> & Hrs2). simpl.
  rewrite reported_kept in Hrs2. fold top in Hrs2.
  apply take_prefix_mono.
  eapply Forall2_functional_prefix;
    [apply is_result_of_functional | | exact Hrs2 | exact Hrs1].
  by apply kept_prefix_sorted.
Qed.

Lemma scored_rows_ordinals ix q : NoDup (fst <$> scored_rows ix q).
Proof.
  apply NoDup_alt. intros i j x Hi Hj.
  unfold scored_rows in *.
  rewrite list_lookup_fmap, list_lookup_imap in Hi, Hj.
  destruct (faiss_xb ix !! i); [|discriminate].
  destruct (faiss_xb ix !! j); [|discriminate].
  simpl in *. injection Hi as <-. injection Hj as Hj. lia.
Qed.

Lemma reported_ordinals ix q top_k cands :
  cands `sublist_of` take top_k (sort_cands (scored_rows ix q)) ->
  NoDup (fst <$> cands) /\
  (length cands <= top_k)%nat /\
  (length cands <= ntotal ix)%nat.
Proof.
  intros Hsub. repeat split.
  - eapply sublist_NoDup; [|by apply fmap_sublist].
    eapply sublist_NoDup; [|apply fmap_sublist, sublist_take].
    rewrite sort_cands_Permutation. apply scored_rows_ordinals.
  - apply sublist_length in Hsub. rewrite length_take in Hsub. lia.
  - apply sublist_length in Hsub.
    rewrite length_take, sort_cands_Permutation in Hsub.
    unfold scored_rows in Hsub. rewrite length_imap in Hsub.
    unfold ntotal. lia.
Qed.

Section MoreSearchProperties.

Variable json_loads : string -> option pyvalue.
Variable literal_eval : string -> option pyvalue.

Local Abbreviation build_index := (build_index json_loads literal_eval).
Local Abbreviation load_index := (load_index json_loads literal_eval).

(** X13: on a loader that has built its index from [rows], an answer has
    at most [top_k] results and at most as many as there are rows, and no
    key occurs twice in it when no key occurs twice in the storage. *)
Theorem results_bounded_and_distinct self0 rows ix es i2e self q top_k
    top_n threshold results :
  is_cached self0 = false ->
  load_index self0 (DbRows rows) = (inr (ix, es, i2e), self) ->
  query_rag (Some self) q top_k top_n threshold = inr results ->
  (length results <= top_k)%nat /\
  (length results <= length rows)%nat /\
  (NoDup (error_id <$> rows) -> NoDup (res_error_id <$> results)).
Proof.
  intros Hc Hl Hquery.
  destruct (build_serves _ _ _ _ _ _ _ _ Hc Hl) as (Hserves & Hi2e & _).
  rewrite (load_index_miss _ _ _ _ Hc) in Hl.
  destruct (build_index self0 rows) as [e|[[ix' es'] i2e']] eqn:Hb;
    [discriminate|].
  injection Hl as -> -> -> <-.
  apply build_index_inr in Hb as (_ & _ & Hvs & _ & Hm).
  unfold query_rag in Hquery. simpl in Hquery.
  destruct (decide (Z.of_nat (length q) = faiss_d ix)) as [Hq|Hq].
  2:{ by rewrite (search_wrong_dimension _ _ _ _ _ _ Hq) in Hquery. }
  destruct (search_spec _ ix q top_k top_n threshold Hserves Hq)
    as (cands & results' & Hsearch & Hsub & _ & Hrel & _).
  rewrite Hsearch in Hquery. injection Hquery as ->.
  destruct (reported_ordinals _ _ _ _ Hsub) as (Hnd & Hk & Hn).
  rewrite <- (Forall2_length _ _ _ Hrel).
  unfold ntotal in Hn. rewrite <- (Forall2_length _ _ _ Hvs) in Hn.
  split; [done|]. split; [done|].
  intros Hkeys. apply NoDup_alt. intros i j x Hi Hj.
  rewrite list_lookup_fmap in Hi, Hj.
  destruct (results !! i) as [r1|] eqn:Hr1; [|discriminate].
  destruct (results !! j) as [r2|] eqn:Hr2; [|discriminate].
  simpl in Hi, Hj. injection Hi as Hi. injection Hj as Hj.
  destruct (Forall2_lookup_r _ _ _ _ _ Hrel Hr1)
    as (c1 & Hc1 & e1 & d1 & Hid1 & _ & ->).
  destruct (Forall2_lookup_r _ _ _ _ _ Hrel Hr2)
    as (c2 & Hc2 & e2 & d2 & Hid2 & _ & ->).
  simpl in Hi, Hj, Hid1, Hid2. subst e1 e2.
  assert (fst c1 = fst c2) as Hsame.
  { assert (c1 ∈ take top_k (sort_cands (scored_rows ix q))) as H1
      by (eapply elem_of_sublist; [by eapply list_elem_of_lookup_2 | done]).
    assert (c2 ∈ take top_k (sort_cands (scored_rows ix q))) as H2
      by (eapply elem_of_sublist; [by eapply list_elem_of_lookup_2 | done]).
    apply reported_candidate in H1 as (a & va & Hva & ->).
    apply reported_candidate in H2 as (b & vb & Hvb & ->).
    simpl in *. apply lookup_lt_Some in Hva, Hvb.
    rewrite <- (Forall2_length _ _ _ Hvs) in Hva, Hvb.
    rewrite Hm, decide_True, Nat2Z.id in Hid1 by lia.
    rewrite Hm, decide_True, Nat2Z.id in Hid2 by lia.
    f_equal. by eapply (NoDup_lookup _ a b x Hkeys). }
  eapply (NoDup_lookup _ i j (fst c1) Hnd);
    rewrite list_lookup_fmap; [by rewrite Hc1 | by rewrite Hc2, Hsame].
Qed.

End MoreSearchProperties.

(** X14: the three endpoints agree on whether the service is loaded:
    [/ready] answers with the size [/health] reports, and a query is
    refused with status 503 exactly when [/health] says unhealthy. *)
Theorem endpoints_agree g :
  (forall n, health_check g = Healthy n <-> readiness_check g = inr (Ready n)) /\
  (forall q top_k top_n threshold,
     health_check g = Unhealthy "Index not loaded" <->
     query_rag g q top_k top_n threshold
       = inl (mkHTTPException 503
                "RAG index not loaded. Service is not ready.")).
Proof.
  unfold health_check, readiness_check, query_rag.
  destruct g as [self|]; [destruct (index self) as [ix|]|];
    (split; [intros n; split; congruence|]); intros q top_k top_n threshold;
    try done.
  split; [discriminate|].
  by destruct (search self ix q top_k top_n threshold).
Qed.

(** ** The query in [float32] *)

Section Float32ResultLoop.

Variable validation_error : payload -> option exn.
Variable self : RAGIndexLoader.
Variable threshold : SpecFloat.spec_float.

Local Abbreviation collect_results :=
  (F32.collect_results validation_error self threshold).

(** Both dictionaries answer for the candidate [c]. *)
Local Abbreviation answered c :=
  (exists eid error_data,
     index_to_error_id self !! fst c = Some eid /\
     error_store self !! eid = Some error_data).

(** The result loop appends one result per kept candidate, in order, when
    the payload of every kept candidate passes the validation. *)
Lemma F32_collect_results_spec cands : forall results,
  Forall (fun c => fst c = -1 \/
                   exists eid error_data,
                     index_to_error_id self !! fst c = Some eid /\
                     error_store self !! eid = Some error_data /\
                     (F32.kept threshold c ->
                      validation_error error_data = None)) cands ->
  exists rs,
    collect_results cands results = inr (results ++ rs) /\
    Forall2 (is_result_of self) (filter (F32.kept threshold) cands) rs.
Proof.
  induction cands as [|[idx sim] cands IH]; intros results Hall.
  - exists []. by rewrite app_nil_r.
  - apply Forall_cons in Hall as [Hc Hall]. simpl in Hc |- *.
    destruct (idx =? -1) eqn:Hidx.
    { apply Z.eqb_eq in Hidx.
      rewrite filter_cons_False by (intros [? _]; done).
      by apply IH. }
    apply Z.eqb_neq in Hidx.
    destruct (float32_lt_float sim threshold) eqn:Hsim.
    { rewrite filter_cons_False by (intros [_ ?]; simpl in *; congruence).
      by apply IH. }
    destruct Hc as [Hc | (eid & error_data & Hi & He & Hv)]; [done|].
    rewrite Hi, He. unfold F32.new_result. rewrite Hv by done. simpl.
    destruct (IH (results ++ [mk_result eid error_data sim]) Hall)
      as (rs & Hrs & Hrel).
    exists (mk_result eid error_data sim :: rs). split.
    + rewrite Hrs. by rewrite <- app_assoc.
    + rewrite filter_cons_True by done.
      constructor; [|done]. by exists eid, error_data.
Qed.

(** The result loop raises when the payload of a kept candidate fails the
    validation. *)
Lemma F32_collect_results_raises cands : forall results,
  Forall (fun c => fst c = -1 \/ answered c) cands ->
  Exists (fun c => F32.kept threshold c /\
                   exists eid error_data e,
                     index_to_error_id self !! fst c = Some eid /\
                     error_store self !! eid = Some error_data /\
                     validation_error error_data = Some e) cands ->
  exists e, collect_results cands results = inl e.
Proof.
  induction cands as [|[idx sim] cands IH]; intros results Hall Hex.
  - by apply Exists_nil in Hex.
  - apply Forall_cons in Hall as [Hc Hall]. simpl in Hc |- *.
    apply Exists_cons in Hex as [Hhead | Htail].
    + destruct Hhead as ([Hidx Hsim] & eid & error_data & e & Hi & He & Hv).
      simpl in *. rewrite (proj2 (Z.eqb_neq _ _) Hidx), Hsim, Hi, He.
      unfold F32.new_result. rewrite Hv. by eexists.
    + destruct (idx =? -1); [by apply IH|].
      destruct (float32_lt_float sim threshold); [by apply IH|].
      destruct (index_to_error_id self !! idx) as [eid|]; [|by eexists].
      destruct (error_store self !! eid) as [error_data|]; [|by eexists].
      unfold F32.new_result.
      destruct (validation_error error_data); [by eexists|].
      simpl. by apply IH.
Qed.

(** The loop skips every candidate and touches neither dictionary when no
    candidate is kept. *)
Lemma F32_collect_results_skipped cands results :
  Forall (fun c => ~ F32.kept threshold c) cands ->
  collect_results cands results = inr results.
Proof.
  induction 1 as [|[idx sim] cands Hc _ IH]; [done|].
  simpl. destruct (idx =? -1) eqn:Hidx; [done|].
  destruct (float32_lt_float sim threshold) eqn:Hsim; [done|].
  destruct Hc. split; [by apply Z.eqb_neq | done].
Qed.

End Float32ResultLoop.

(** The list the result loop runs over, for a search that reports
    [hits]. *)
Lemma reports_zip F ix q k hits similarities indices :
  reports F ix q k hits (similarities, indices) ->
  exists pad : list Q,
    zip indices similarities
    = ((fun i => (Z.of_nat i, row_score F ix q i)) <$> hits)
      ++ ((fun s => (-1, s)) <$> pad).
Proof.
  intros (pad & [= -> ->] & _). exists pad.
  rewrite (zip_with_app pair) by (by rewrite !length_fmap).
  rewrite zip_with_fmap_l, zip_with_fmap_r, zip_with_diag.
  by rewrite zip_with_replicate_l by done.
Qed.

Lemma F32_filter_kept_hits threshold (score : nat -> Q) (hits : list nat) :
  filter (F32.kept threshold) ((fun i => (Z.of_nat i, score i)) <$> hits)
  = (fun i => (Z.of_nat i, score i))
      <$> filter (fun i => float32_lt_float (score i) threshold = false) hits.
Proof.
  induction hits as [|i hits IH]; [done|].
  rewrite fmap_cons, !filter_cons, IH.
  destruct (decide (float32_lt_float (score i) threshold = false)) as [H|H].
  - rewrite decide_True; [done|]. split; [simpl; lia | done].
  - rewrite decide_False; [done|]. by intros [_ ?].
Qed.

Lemma F32_filter_kept_pads threshold (pad : list Q) :
  filter (F32.kept threshold) ((fun s => (-1, s)) <$> pad) = [].
Proof.
  induction pad as [|s pad IH]; [done|].
  rewrite fmap_cons, filter_cons_False; [done | by intros [? _]].
Qed.

(** Results built for a list of rows in descending order of score are in
    descending order of score. *)
Lemma results_descending (score : nat -> Q) (hits : list nat) results :
  StronglySorted (fun i j => (score j <= score i)%Q) hits ->
  Forall2 (fun i r => similarity_score r = score i) hits results ->
  scores_descending results.
Proof.
  intros Hsorted Hrel i j r1 r2 Hij H1 H2.
  destruct (Forall2_lookup_r _ _ _ _ _ Hrel H1) as (a & Ha & ->).
  destruct (Forall2_lookup_r _ _ _ _ _ Hrel H2) as (b & Hb & ->).
  by apply (StronglySorted_lookup_lt _ _ Hsorted i j).
Qed.

(** *** The exact search meets what is asked of FAISS *)

Lemma scored_rows_lookup ix q c :
  c ∈ scored_rows ix q ->
  exists i : nat,
    (i < ntotal ix)%nat /\
    c = (Z.of_nat i, row_score faiss_exact ix q i).
Proof.
  intros (i & v & -> & Hv)%elem_of_lookup_imap.
  exists i. split; [unfold ntotal; by eapply lookup_lt_Some|].
  unfold row_score. by rewrite Hv.
Qed.

Lemma scored_rows_ordinals_seq ix q :
  (fun c : Z * Q => Z.to_nat (fst c)) <$> scored_rows ix q
  = seq 0 (ntotal ix).
Proof.
  unfold scored_rows, ntotal. apply list_eq. intros i.
  rewrite list_lookup_fmap, list_lookup_imap.
  destruct (faiss_xb ix !! i) as [v|] eqn:Hv; simpl.
  - rewrite Nat2Z.id. symmetry. apply lookup_seq. split; [done|].
    by eapply lookup_lt_Some.
  - symmetry. apply lookup_seq_ge. by apply lookup_ge_None.
Qed.

Lemma StronglySorted_fmap_elem_of {A B} (R : relation A) (R' : relation B)
    (f : A -> B) l :
  (forall a b, a ∈ l -> b ∈ l -> R a b -> R' (f a) (f b)) ->
  StronglySorted R l -> StronglySorted R' (f <$> l).
Proof.
  intros Hf Hs. induction Hs as [|x l Hl IH Hx]; [constructor|].
  rewrite fmap_cons. constructor.
  - apply IH. intros a b Ha Hb. apply Hf; by apply list_elem_of_further.
  - apply Forall_fmap, Forall_forall. intros y Hy. simpl.
    apply Hf; [apply list_elem_of_here | by apply list_elem_of_further |].
    by apply (proj1 (Forall_forall _ _) Hx).
Qed.

Lemma faiss_exact_contract : faiss_contract faiss_exact.
Proof.
  intros ix q k. split.
  2:{ intros Hq. simpl. unfold IndexFlatIP_search.
      rewrite (proj2 (Z.eqb_neq _ _) Hq). by eexists. }
  intros Hq. simpl. unfold IndexFlatIP_search.
  rewrite (proj2 (Z.eqb_eq _ _) Hq). simpl.
  set (sorted := sort_cands (scored_rows ix q)).
  set (top := take k sorted).
  set (ord := fun c : Z * Q => Z.to_nat (fst c)).
  assert (forall c, c ∈ sorted ->
            exists i : nat,
              (i < ntotal ix)%nat /\
              c = (Z.of_nat i, row_score faiss_exact ix q i)) as Hsorted_in.
  { intros c Hc. apply scored_rows_lookup.
    by rewrite <- (sort_cands_Permutation (scored_rows ix q)). }
  assert (forall c, c ∈ top -> c ∈ sorted) as Htop_in.
  { intros c Hc. eapply elem_of_sublist; [exact Hc | apply sublist_take]. }
  assert (NoDup (ord <$> sorted)) as Hnd.
  { unfold sorted. rewrite sort_cands_Permutation, scored_rows_ordinals_seq.
    apply NoDup_seq. }
  exists (ord <$> top). eexists. split; [reflexivity|].
  exists (replicate (k - length top) neg_FLT_MAX).
  assert (length sorted = ntotal ix) as Hlen.
  { unfold sorted. rewrite sort_cands_Permutation.
    unfold scored_rows, ntotal. apply length_imap. }
  split; [|split; [|split; [|split; [|split; [|split]]]]].
  - rewrite !fmap_app, !fmap_replicate, length_replicate. simpl.
    f_equal; f_equal.
    + rewrite <- list_fmap_compose. apply Forall_fmap_ext, Forall_forall.
      intros c Hc. destruct (Hsorted_in c (Htop_in c Hc)) as (i & _ & ->).
      unfold ord. simpl. by rewrite Nat2Z.id.
    + rewrite <- list_fmap_compose. apply Forall_fmap_ext, Forall_forall.
      intros c Hc. destruct (Hsorted_in c (Htop_in c Hc)) as (i & _ & ->).
      unfold ord. simpl. by rewrite Nat2Z.id.
  - rewrite length_fmap, length_replicate. unfold top.
    rewrite length_take. lia.
  - rewrite length_fmap. unfold top. by rewrite length_take, Hlen.
  - eapply sublist_NoDup; [exact Hnd|]. apply fmap_sublist, sublist_take.
  - apply Forall_fmap, Forall_forall. intros c Hc.
    destruct (Hsorted_in c (Htop_in c Hc)) as (i & Hi & ->).
    unfold ord. simpl. by rewrite Nat2Z.id.
  - apply (StronglySorted_fmap_elem_of not_after).
    + intros a b Ha Hb Hab%not_after_score.
      destruct (Hsorted_in a (Htop_in a Ha)) as (i & _ & ->).
      destruct (Hsorted_in b (Htop_in b Hb)) as (j & _ & ->).
      unfold ord. simpl in *. by rewrite !Nat2Z.id.
    + eapply StronglySorted_sublist; [apply sublist_take|].
      apply sort_cands_sorted.
  - intros i j Hi Hni Hj.
    apply list_elem_of_fmap in Hj as (cj & -> & Hcj).
    assert ((Z.of_nat i, row_score faiss_exact ix q i) ∈ sorted) as Hci.
    { unfold sorted. rewrite sort_cands_Permutation.
      destruct (lookup_lt_is_Some_2 (faiss_xb ix) i Hi) as [v Hv].
      apply elem_of_lookup_imap. exists i, v. split; [|done].
      unfold row_score. by rewrite Hv. }
    rewrite <- (take_drop k sorted) in Hci.
    apply elem_of_app in Hci as [Hci | Hci].
    { destruct Hni. apply list_elem_of_fmap.
      exists (Z.of_nat i, row_score faiss_exact ix q i). split; [|done].
      unfold ord. simpl. by rewrite Nat2Z.id. }
    pose proof (sort_cands_sorted (scored_rows ix q)) as Hs.
    fold sorted in Hs. rewrite <- (take_drop k sorted) in Hs.
    pose proof (StronglySorted_app_1_elem_of _ _ _ _ _ Hs Hcj Hci) as Hord.
    apply not_after_score in Hord. simpl in Hord.
    destruct (Hsorted_in cj (Htop_in cj Hcj)) as (j' & _ & ->).
    unfold ord. simpl in *. by rewrite Nat2Z.id.
Qed.

(** *** The search on a loaded snapshot *)

Section Float32Search.

Variable json_loads : string -> option pyvalue.
Variable literal_eval : string -> option pyvalue.
Variable F : faiss_library.
Variable validation_error : payload -> option exn.
Variable linalg_norm : list Q -> Q.
Variable float32_div : Q -> Q -> Q.

Local Abbreviation load_index := (load_index json_loads literal_eval).
Local Abbreviation search := (F32.search F validation_error).
Local Abbreviation normalize := (F32.normalize linalg_norm float32_div).
Local Abbreviation query_rag :=
  (F32.query_rag F validation_error linalg_norm float32_div).

Lemma serves_candidate_payload self ix i :
  serves self ix -> (i < ntotal ix)%nat ->
  exists eid error_data,
    index_to_error_id self !! Z.of_nat i = Some eid /\
    error_store self !! eid = Some error_data /\
    candidate_payload self i = Some error_data.
Proof.
  intros (_ & _ & Hs) Hi. destruct (Hs i Hi) as (eid & error_data & H1 & H2).
  exists eid, error_data. unfold candidate_payload. by rewrite H1.
Qed.

(** What [search] does with the rows the index reports. *)
Lemma F32_search_reported self ix q top_k top_n threshold hits found :
  faiss_search F ix q top_k = inr found ->
  reports F ix q top_k hits found ->
  exists pad : list Q,
    search self ix q top_k top_n threshold =
      bind_exn
        (F32.collect_results validation_error self threshold
           (((fun i => (Z.of_nat i, row_score F ix q i)) <$> hits)
            ++ ((fun s => (-1, s)) <$> pad)) [])
        (fun results => inr (take top_n results)).
Proof.
  intros Hfound Hrep. destruct found as [similarities indices].
  destruct (reports_zip _ _ _ _ _ _ _ Hrep) as [pad Hzip].
  exists pad. unfold F32.search. rewrite Hfound. simpl. by rewrite Hzip.
Qed.

(** C2, as the code has it: on a loader that has built its index, for a
    query vector of the configured dimension, [top_k >= 1], [top_n >= 1]
    and a threshold the request model accepts, the index reports the
    [top_k] rows of highest score (all rows when there are fewer), best
    first, in an order among equal scores that is its own.  Of these, the
    rows pass whose score is not below the threshold rounded to [float32],
    the precision in which the comparison is made.  When the payload of
    every passing row is accepted by the result model, the search returns
    the results of the first [top_n] passing rows, in that order: at most
    [top_n] results, in descending order of score, none with a score below
    the rounded threshold.  When the payload of a passing row is refused,
    the search raises, and the query is answered with status 500. *)
Theorem search_float32_results self0 db ix es i2e self q top_k top_n
    threshold :
  faiss_contract F ->
  is_cached self0 = false ->
  load_index self0 db = (inr (ix, es, i2e), self) ->
  Z.of_nat (length q) = embedding_dim self ->
  (1 <= top_k)%nat ->
  (1 <= top_n)%nat ->
  is_threshold threshold = true ->
  let score := row_score F ix q in
  let rounded := float_value (float32_of_float threshold) in
  (exists hits : list nat,
     length hits = (top_k `min` ntotal ix)%nat /\
     NoDup hits /\
     Forall (fun i => (i < ntotal ix)%nat) hits /\
     StronglySorted (fun i j => (score j <= score i)%Q) hits /\
     (forall i j,
        (i < ntotal ix)%nat -> i ∉ hits -> j ∈ hits ->
        (score i <= score j)%Q) /\
     Forall (fun i => is_Some (candidate_payload self i)) hits /\
     let passing :=
       filter (fun i => float32_lt_float (score i) threshold = false) hits in
     Forall (fun i => (rounded <= score i)%Q) passing /\
     (Forall (fun i => exists error_data,
                candidate_payload self i = Some error_data /\
                validation_error error_data = None) passing ->
      exists results,
        search self ix q top_k top_n threshold = inr results /\
        Forall2 (fun i r => is_result_of self (Z.of_nat i, score i) r)
          (take top_n passing) results /\
        (length results <= top_n)%nat /\
        scores_descending results /\
        Forall (fun r => (rounded <= similarity_score r)%Q) results) /\
     (Exists (fun i => exists error_data e,
                candidate_payload self i = Some error_data /\
                validation_error error_data = Some e) passing ->
      exists e, search self ix q top_k top_n threshold = inl e)) /\
  (forall query_embedding,
     query_rag (Some self) query_embedding top_k top_n threshold =
       match search self ix (normalize query_embedding) top_k top_n
               threshold with
       | inr results => inr results
       | inl e =>
           inl (mkHTTPException 500
                  ("Error processing query: " +:+ str_exn e))
       end).
Proof.
  intros HF Hc Hl Hq _ _ _ score rounded.
  destruct (build_serves _ _ _ _ _ _ _ _ Hc Hl) as (Hserves & Hi2e & Hes).
  pose proof Hserves as (Hix & Hd & _).
  split; [|intros query_embedding; unfold F32.query_rag; by rewrite Hix].
  destruct (proj1 (HF ix q top_k)) as (hits & found & Hfound & Hrep);
    [congruence|].
  destruct (F32_search_reported self ix q top_k top_n threshold hits found
              Hfound Hrep) as [pad Hsearch].
  destruct Hrep as (_ & _ & _ & Hlen & Hnd & Hbound & Hsorted & Htop).
  fold score in Hsorted, Htop, Hsearch.
  set (cand := fun i : nat => (Z.of_nat i, score i)) in *.
  set (passes := fun i : nat => float32_lt_float (score i) threshold = false).
  assert (Forall (fun c => fst c = -1 \/
                    exists eid error_data,
                      index_to_error_id self !! fst c = Some eid /\
                      error_store self !! eid = Some error_data)
            ((cand <$> hits) ++ ((fun s => (-1, s)) <$> pad))) as Hanswered.
  { apply Forall_app. split.
    - apply Forall_fmap, Forall_forall. intros i Hi. right.
      apply (proj1 (Forall_forall _ _) Hbound) in Hi.
      destruct (serves_candidate_payload _ _ _ Hserves Hi)
        as (eid & error_data & H1 & H2 & _).
      by exists eid, error_data.
    - apply Forall_fmap, Forall_forall. intros s _. by left. }
  assert (filter (F32.kept threshold)
            ((cand <$> hits) ++ ((fun s => (-1, s)) <$> pad))
          = cand <$> filter passes hits) as Hfilter.
  { rewrite filter_app, F32_filter_kept_pads, app_nil_r.
    apply F32_filter_kept_hits. }
  exists hits.
  split; [done|]. split; [done|]. split; [done|]. split; [done|].
  split; [done|]. split.
  { apply Forall_forall. intros i Hi.
    apply (proj1 (Forall_forall _ _) Hbound) in Hi.
    destruct (serves_candidate_payload _ _ _ Hserves Hi)
      as (eid & error_data & _ & _ & ->).
    by eexists. }
  cbv zeta. fold passes. split; [|split].
  - apply Forall_forall. intros i [Hi _]%list_elem_of_filter.
    by apply Qltb_false.
  - intros Hvalid.
    destruct (F32_collect_results_spec validation_error self threshold
                ((cand <$> hits) ++ ((fun s => (-1, s)) <$> pad)) [])
      as (rs & Hrs & Hrel).
    { apply Forall_app. split.
      - apply Forall_fmap, Forall_forall. intros i Hi. right.
        pose proof (proj1 (Forall_forall _ _) Hbound i Hi) as Hlt.
        destruct (serves_candidate_payload _ _ _ Hserves Hlt)
          as (eid & error_data & H1 & H2 & H3).
        exists eid, error_data. split; [done|]. split; [done|].
        intros [_ Hkept]. simpl in Hkept.
        assert (i ∈ filter passes hits) as Hin
          by (by apply list_elem_of_filter).
        destruct (proj1 (Forall_forall _ _) Hvalid i Hin) as (p & Hp & Hv).
        congruence.
      - apply Forall_fmap, Forall_forall. intros s _. by left. }
    rewrite Hfilter, Forall2_fmap_l in Hrel.
    exists (take top_n rs). rewrite Hsearch, Hrs. simpl.
    assert (Forall2 (fun i r => is_result_of self (cand i) r)
              (take top_n (filter passes hits)) (take top_n rs)) as Hrel'
      by (by apply Forall2_take).
    split; [done|]. split; [done|]. split; [|split].
    + rewrite length_take. lia.
    + apply (results_descending score (take top_n (filter passes hits))).
      * eapply StronglySorted_sublist; [|exact Hsorted].
        etrans; [apply sublist_take | apply sublist_filter].
      * eapply Forall2_impl; [exact Hrel'|].
        by intros i r (? & ? & _ & _ & ->).
    + eapply (Forall2_Forall_r _ (fun i => i ∈ filter passes hits));
        [exact Hrel' | |].
      * apply Forall_forall. intros i Hi.
        eapply elem_of_sublist; [exact Hi | apply sublist_take].
      * intros i r (? & ? & _ & _ & ->) [Hi _]%list_elem_of_filter.
        simpl. by apply Qltb_false.
  - intros Hfail. rewrite Hsearch.
    apply Exists_exists in Hfail as (i & Hi & error_data & e & Hp & Hv).
    apply list_elem_of_filter in Hi as [Hpass Hi].
    unfold candidate_payload in Hp. apply bind_Some in Hp as (eid & H1 & H2).
    destruct (F32_collect_results_raises validation_error self threshold
                ((cand <$> hits) ++ ((fun s => (-1, s)) <$> pad)) []
                Hanswered) as [e' He'].
    { apply Exists_app. left. apply Exists_exists. exists (cand i). split.
      - by apply list_elem_of_fmap_2.
      - split; [split; [simpl; lia | done]|]. by exists eid, error_data, e. }
    exists e'. by rewrite He'.
Qed.

(** A search all of whose rows score below the rounded threshold. *)
Lemma F32_search_all_below self ix q top_k top_n threshold :
  faiss_contract F ->
  Z.of_nat (length q) = faiss_d ix ->
  (forall i,
     (i < ntotal ix)%nat ->
     (row_score F ix q i < float_value (float32_of_float threshold))%Q) ->
  search self ix q top_k top_n threshold = inr [].
Proof.
  intros HF Hq Hlow.
  destruct (proj1 (HF ix q top_k) Hq) as (hits & found & Hfound & Hrep).
  destruct (F32_search_reported self ix q top_k top_n threshold hits found
              Hfound Hrep) as [pad ->].
  destruct Hrep as (_ & _ & _ & _ & _ & Hbound & _).
  rewrite F32_collect_results_skipped; [simpl; by rewrite take_nil|].
  apply Forall_app. split.
  - apply Forall_fmap, Forall_forall. intros i Hi [_ Hk]. simpl in Hk.
    apply (proj1 (Forall_forall _ _) Hbound) in Hi.
    apply Qltb_false in Hk. specialize (Hlow i Hi). lra.
  - apply Forall_fmap, Forall_forall. intros s _ [? _]. done.
Qed.

Lemma F32_query_all_below self ix q top_k top_n threshold :
  faiss_contract F ->
  index self = Some ix ->
  Z.of_nat (length (normalize q)) = faiss_d ix ->
  (forall i,
     (i < ntotal ix)%nat ->
     (row_score F ix (normalize q) i
        < float_value (float32_of_float threshold))%Q) ->
  search self ix (normalize q) top_k top_n threshold = inr [] /\
  query_rag (Some self) q top_k top_n threshold = inr [].
Proof.
  intros HF Hix Hq Hlow.
  assert (search self ix (normalize q) top_k top_n threshold = inr [])
    as Hsearch by (by apply F32_search_all_below).
  split; [done|]. unfold F32.query_rag. by rewrite Hix, Hsearch.
Qed.

(** X10: when every row of the index scores below the threshold rounded
    to [float32], the search returns the empty list and raises nothing,
    whatever the dictionaries hold and the result model accepts. *)
Theorem no_row_reaches_threshold self ix q top_k top_n threshold :
  faiss_contract F ->
  index self = Some ix ->
  Z.of_nat (length (normalize q)) = faiss_d ix ->
  (forall i,
     (i < ntotal ix)%nat ->
     (row_score F ix (normalize q) i
        < float_value (float32_of_float threshold))%Q) ->
  search self ix (normalize q) top_k top_n threshold = inr [] /\
  query_rag (Some self) q top_k top_n threshold = inr [].
Proof. apply F32_query_all_below. Qed.

(** X11: the zero vector has norm 0, so the normalisation leaves it as it
    is; it scores 0 on every row, and for a threshold that is above 0
    after rounding to [float32] the query is answered with the empty
    list, not with an error. *)
Theorem zero_query_returns_nothing self ix (m : nat) top_k top_n threshold :
  faiss_contract F ->
  index self = Some ix ->
  Z.of_nat m = faiss_d ix ->
  (linalg_norm (replicate m 0%Q) <= 0)%Q ->
  (forall v,
     v ∈ faiss_xb ix ->
     (fvec_inner_product F (replicate m 0%Q) v == 0)%Q) ->
  (0 < float_value (float32_of_float threshold))%Q ->
  normalize (replicate m 0%Q) = replicate m 0%Q /\
  query_rag (Some self) (replicate m 0%Q) top_k top_n threshold = inr [].
Proof.
  intros HF Hix Hm Hnorm Hzero Ht.
  assert (normalize (replicate m 0%Q) = replicate m 0%Q) as Hn.
  { unfold F32.normalize.
    by rewrite (proj2 (Qltb_false _ _) Hnorm). }
  split; [done|].
  apply (F32_query_all_below self ix); try done.
  - by rewrite Hn, length_replicate.
  - intros i Hi. rewrite Hn. unfold row_score.
    destruct (lookup_lt_is_Some_2 (faiss_xb ix) i Hi) as [v Hv].
    rewrite Hv. simpl.
    rewrite (Hzero v); [done|]. by eapply list_elem_of_lookup_2.
Qed.

End Float32Search.

(** ** More on the initialization pipeline *)

(** A closed statement about a trace, settled by evaluation. *)
Ltac by_trace := apply (bool_decide_unpack _); vm_compute; exact I.

(** [run_main], keeping what a collaborator that is a function
    answered. *)
Ltac run_main_eqn :=
  repeat match goal with
         | |- context [match ?x with _ => _ end] =>
             first
               [ is_var x; destruct x
               | match x with
                 | ?f ?a => first [is_var a; destruct a
                                  | is_var f; destruct (f a) eqn:?]
                 end ];
             simpl
         end.

Section MorePipelineProperties.

Context {P : Type}.
Variable w : world P.

(** X15: the monitor is best effort: when its task cannot be created the
    run is the body of the [try] and nothing else, with no monitor event
    in the trace; only an exception that is no [Exception] ends the run
    before anything is done. *)
Theorem monitor_is_best_effort e :
  create_monitor_task w = inl e ->
  main w [] = if is_Exception e then main_try w [] else ([], inl e).
Proof.
  intros H. unfold main, start_monitor, try_except, try_finally, call,
    main_finally, mbind, M_bind, mret, M_ret.
  rewrite H. destruct (is_Exception e); [|done].
  by destruct (main_try w []) as [tr r].
Qed.

(** X16: when the monitor has been started and the await of it ends by
    an exception other than [CancelledError], the run ends by that
    exception, whatever its body did. *)
Theorem monitor_exception_replaces_outcome e :
  create_monitor_task w = inr () ->
  await_monitor w = inl e ->
  is_CancelledError e = false ->
  (main w []).2 = inl e.
Proof.
  intros Hcm Ham He. rewrite (main_started w Hcm). unfold try_finally.
  destruct (main_try w [MonitorCreated]) as [tr1 r].
  unfold_main. simpl. by rewrite Ham, He.
Qed.

(** X17: a run ends without exception exactly when every phase succeeds
    (the setup, the preparation, the job-wait, the wait for the RAG
    service and the processing of what the preparation returned) and the
    monitor, if it was started, ends by its cancellation or normally. *)
Theorem main_succeeds_iff :
  (main w []).2 = inr () <->
  (forall e, create_monitor_task w = inl e -> is_Exception e = true) /\
  setup_data_directories w = inr () /\
  (exists p, training_pipeline_prepare w = inr p /\
             training_pipeline_process w p = inr ()) /\
  rag_job_wait w = inr () /\
  wait_for_rag_service w = inr () /\
  (create_monitor_task w = inr () ->
   await_monitor w = inr () \/ await_monitor w = inl CancelledError).
Proof.
  destruct w as [cm sd tp jw rs pr am]. simpl. unfold_main. simpl.
  split.
  - run_main_eqn; intros Hres; try discriminate;
      repeat match goal with u : () |- _ => destruct u end;
      (split; [intros; simplify_eq; done|]);
      (split; [done|]); (split; [eexists; split; [done|]; by eauto|]);
      (split; [done|]); (split; [done|]); intros; simplify_eq; eauto.
  - intros (Hcm & -> & (p & -> & Hpr) & -> & -> & Ham).
    destruct cm as [e|[]]; simpl.
    + rewrite (Hcm e eq_refl). simpl. by rewrite Hpr.
    + rewrite Hpr. simpl.
      by destruct (Ham eq_refl) as [-> | ->].
Qed.

(** X18: the processing phase is invoked exactly when the setup, the
    preparation, the job-wait and the wait for the RAG service have all
    succeeded, and then the readiness of the RAG service precedes it in
    the trace. *)
Theorem process_invoked_iff :
  (ProcessInvoked ∈ (main w []).1 <->
   (forall e, create_monitor_task w = inl e -> is_Exception e = true) /\
   setup_data_directories w = inr () /\
   (exists p, training_pipeline_prepare w = inr p) /\
   rag_job_wait w = inr () /\
   wait_for_rag_service w = inr ()) /\
  (forall pre post,
     (main w []).1 = pre ++ ProcessInvoked :: post ->
     RagServiceReady ∈ pre).
Proof.
  split.
  - destruct w as [cm sd tp jw rs pr am]. simpl. unfold_main. simpl.
    split.
    + run_main; intros Hin;
        try (exfalso; revert Hin; not_in_trace);
        repeat match goal with u : () |- _ => destruct u end;
        (split; [intros; simplify_eq; done|]);
        (split; [done|]); (split; [by eexists|]); by split.
    + intros (Hcm & -> & (p & ->) & -> & ->).
      destruct cm as [e|[]]; simpl.
      * rewrite (Hcm e eq_refl). simpl.
        destruct (pr p); simpl; by_trace.
      * destruct (pr p); simpl; run_main; by_trace.
  - intros pre post Heq.
    eapply (only_after_sound RagServiceReady ProcessInvoked);
      [discriminate | | exact Heq].
    destruct w as [cm sd tp jw rs pr am]. unfold_main. simpl.
    run_main; reflexivity.
Qed.

(** X19: when the preparation raises, the job-wait task, which has been
    created, is never awaited: the trace holds its creation and no
    outcome of it, and the processing phase is not invoked. *)
Theorem failed_preparation_abandons_job_wait e :
  (forall e', create_monitor_task w = inl e' -> is_Exception e' = true) ->
  setup_data_directories w = inr () ->
  training_pipeline_prepare w = inl e ->
  JobWaitCreated ∈ (main w []).1 /\
  (JobWaitSucceeded ∉ (main w []).1) /\
  (ProcessInvoked ∉ (main w []).1) /\
  (exists e', (main w []).2 = inl e').
Proof.
  destruct w as [cm sd tp jw rs pr am]. simpl. intros Hcm -> ->.
  unfold_main. simpl.
  destruct cm as [e0|[]]; simpl.
  - rewrite (Hcm e0 eq_refl). simpl.
    repeat split; first [by_trace | not_in_trace | by eexists].
  - repeat split; run_main; first [by_trace | not_in_trace | by eexists].
Qed.

(** X20: no step of the pipeline happens twice in a run. *)
Theorem main_trace_NoDup : NoDup (main w []).1.
Proof.
  destruct w as [cm sd tp jw rs pr am]. unfold_main. simpl.
  run_main; by_trace.
Qed.

End MorePipelineProperties.

(** ** The database URL *)

Lemma str_prefix_refl s : String.prefix s s = true.
Proof. induction s as [|a s IH]; [done|]. by rewrite str_prefix_cons_eq. Qed.

Lemma replace_from_skip old new p s :
  replace_from (String.length p) old new (p +:+ s)
    = replace_from 0 old new s.
Proof.
  induction p as [|a p IH]; simpl; [|exact IH].
  by destruct s.
Qed.

Lemma str_replace_occurrence c old new s :
  str_replace (String c old) new (String c old +:+ s)
    = new +:+ str_replace (String c old) new s.
Proof.
  unfold str_replace.
  change (String c old +:+ s) with (String c (old +:+ s)).
  cbn [replace_from].
  change (String c (old +:+ s)) with (String c old +:+ s).
  rewrite (str_prefix_app_r _ _ s (str_prefix_refl (String c old))).
  replace (String.length (String c old) - 1)%nat with (String.length old)
    by (simpl; lia).
  by rewrite replace_from_skip.
Qed.

Lemma str_replace_absent old new s :
  contains old s = false -> str_replace old new s = s.
Proof.
  unfold str_replace. induction s as [|a s IH]; [done|].
  cbn [contains]. intros [Hp Hs]%orb_false_iff.
  cbn [replace_from]. by rewrite Hp, (IH Hs).
Qed.

Lemma str_replace_skip_prefix c old new a s :
  has_char c a = false ->
  str_replace (String c old) new (a +:+ s)
    = a +:+ str_replace (String c old) new s.
Proof.
  intros Ha. unfold str_replace. induction a as [|x a IH]; [done|].
  simpl in Ha. apply orb_false_iff in Ha as [Hx Ha].
  change (String x a +:+ s) with (String x (a +:+ s)).
  cbn [replace_from]. rewrite str_prefix_cons_ne, (IH Ha); [done|].
  intros ->. by rewrite Ascii.eqb_refl in Hx.
Qed.

(** X21: a URL that begins with [postgresql], with or without the driver
    suffix [+asyncpg], and holds neither text elsewhere is handed to the
    engine as [postgresql+asyncpg] followed by the rest; a URL that holds
    neither text at all, such as one of the scheme [postgres], is handed
    over unchanged. *)
Theorem normalize_database_url_asyncpg rest :
  contains "+asyncpg" rest = false ->
  contains "postgresql" rest = false ->
  normalize_database_url ("postgresql" +:+ rest)
    = "postgresql+asyncpg" +:+ rest /\
  normalize_database_url ("postgresql+asyncpg" +:+ rest)
    = "postgresql+asyncpg" +:+ rest /\
  normalize_database_url rest = rest.
Proof.
  intros Ha Hp. unfold normalize_database_url.
  assert (str_replace "postgresql" "postgresql+asyncpg"
            ("postgresql" +:+ rest) = "postgresql+asyncpg" +:+ rest) as Hnorm.
  { rewrite (str_replace_occurrence "p" "ostgresql").
    by rewrite (str_replace_absent _ _ rest Hp). }
  repeat split.
  - rewrite (str_replace_skip_prefix "+" "asyncpg" "" "postgresql" rest)
      by reflexivity.
    by rewrite (str_replace_absent _ _ rest Ha).
  - change ("postgresql+asyncpg" +:+ rest)
      with ("postgresql" +:+ ("+asyncpg" +:+ rest)).
    rewrite (str_replace_skip_prefix "+" "asyncpg" "" "postgresql")
      by reflexivity.
    rewrite (str_replace_occurrence "+" "asyncpg").
    by rewrite (str_replace_absent _ _ rest Ha).
  - by rewrite (str_replace_absent _ _ rest Ha),
       (str_replace_absent _ _ rest Hp).
Qed.

(** ** [init_tables] *)

Section InitTablesProperties.

Context {Row : Type}.
Variable GrafanaAlert_metadata : list string.
Variable RAGEmbedding_metadata : list string.

Local Abbreviation create_tables :=
  (create_tables GrafanaAlert_metadata RAGEmbedding_metadata).
Local Abbreviation init_tables :=
  (init_tables GrafanaAlert_metadata RAGEmbedding_metadata).

Lemma drop_all_lookup (md : list string) (t : gmap string (list Row)) n :
  drop_all md t !! n = if decide (n ∈ md) then None else t !! n.
Proof.
  unfold drop_all. induction md as [|m md IH]; cbn [foldr].
  - by rewrite decide_False by apply not_elem_of_nil.
  - destruct (decide (m = n)) as [->|Hne].
    + rewrite lookup_delete_eq. by rewrite decide_True by constructor.
    + rewrite lookup_delete_ne, IH by done.
      destruct (decide (n ∈ md)) as [Hin|Hin].
      * by rewrite decide_True by (by constructor).
      * rewrite decide_False; [done|].
        intros [?|?]%elem_of_cons; congruence.
Qed.

Lemma create_all_lookup (md : list string) (t : gmap string (list Row)) n :
  create_all md t !! n =
    match t !! n with
    | Some rows => Some rows
    | None => if decide (n ∈ md) then Some [] else None
    end.
Proof.
  unfold create_all. induction md as [|m md IH]; cbn [foldr].
  - rewrite decide_False by apply not_elem_of_nil. by destruct (t !! n).
  - set (t' := foldr _ t md) in *.
    assert ((match t' !! m with
             | Some _ => t'
             | None => <[m:=[]]> t'
             end) !! n
            = match t' !! n with
              | Some rows => Some rows
              | None => if decide (n = m) then Some [] else None
              end) as ->.
    { destruct (decide (n = m)) as [->|Hne].
      - destruct (t' !! m) eqn:E; [by rewrite E|].
        by rewrite lookup_insert_eq.
      - destruct (t' !! m) eqn:E.
        + by destruct (t' !! n).
        + rewrite lookup_insert_ne by done. by destruct (t' !! n). }
    rewrite IH. destruct (t !! n); [done|].
    destruct (decide (n ∈ md)) as [Hin|Hin].
    + by rewrite decide_True by (by constructor).
    + destruct (decide (n = m)) as [->|Hne].
      * by rewrite decide_True by constructor.
      * rewrite decide_False; [done|].
        intros [?|?]%elem_of_cons; congruence.
Qed.

(** The tables after a second transaction that committed. *)
Lemma create_tables_lookup delete_tables o
    (t t' : gmap string (list Row)) n :
  create_tables delete_tables o t = inr t' ->
  t' !! n =
    if decide (delete_tables = true /\ n ∈ GrafanaAlert_metadata)
    then Some []
    else match t !! n with
         | Some rows => Some rows
         | None =>
             if decide (n ∈ GrafanaAlert_metadata
                        \/ n ∈ RAGEmbedding_metadata)
             then Some [] else None
         end.
Proof.
  assert (n ∈ GrafanaAlert_metadata \/ n ∉ GrafanaAlert_metadata) as Hga
    by (destruct (decide (n ∈ GrafanaAlert_metadata)); auto).
  assert (n ∈ RAGEmbedding_metadata \/ n ∉ RAGEmbedding_metadata) as Hrag
    by (destruct (decide (n ∈ RAGEmbedding_metadata)); auto).
  unfold create_tables.
  destruct delete_tables; simpl.
  - destruct (drop_alert_raises o); simpl; [discriminate|].
    destruct (create_alert_raises o); simpl; [discriminate|].
    destruct (create_rag_raises o); [discriminate|].
    intros [= <-]. rewrite !create_all_lookup, drop_all_lookup.
    destruct Hga as [Hga|Hga].
    + by rewrite !(decide_True _ _ Hga), (decide_True _ _ (conj eq_refl Hga)).
    + rewrite !(decide_False _ _ Hga).
      assert (~ (true = true /\ n ∈ GrafanaAlert_metadata)) as Hn
        by (by intros [_ ?]).
      rewrite (decide_False _ _ Hn).
      destruct (t !! n); [done|].
      destruct Hrag as [Hrag|Hrag].
      * by rewrite (decide_True _ _ Hrag),
             (decide_True _ _ (or_intror Hrag : _ \/ _)).
      * rewrite (decide_False _ _ Hrag).
        assert (~ (n ∈ GrafanaAlert_metadata \/ n ∈ RAGEmbedding_metadata))
          as Hn' by (by intros [?|?]).
        by rewrite (decide_False _ _ Hn').
  - destruct (create_alert_raises o); simpl; [discriminate|].
    destruct (create_rag_raises o); [discriminate|].
    intros [= <-]. rewrite !create_all_lookup.
    assert (~ (false = true /\ n ∈ GrafanaAlert_metadata)) as Hn
      by (by intros [? _]).
    try rewrite (decide_False _ _ Hn).
    destruct (t !! n); [done|].
    destruct Hga as [Hga|Hga].
    + by rewrite (decide_True _ _ Hga),
           (decide_True _ _ (or_introl Hga : _ \/ _)).
    + rewrite (decide_False _ _ Hga).
      destruct Hrag as [Hrag|Hrag].
      * by rewrite (decide_True _ _ Hrag),
             (decide_True _ _ (or_intror Hrag : _ \/ _)).
      * rewrite (decide_False _ _ Hrag).
        assert (~ (n ∈ GrafanaAlert_metadata \/ n ∈ RAGEmbedding_metadata))
          as Hn' by (by intros [?|?]).
        by rewrite (decide_False _ _ Hn').
Qed.

(** X22: [init_tables()] without deletion loses nothing: when it raises
    nothing, every table that existed keeps its rows and every table of
    the two metadata exists. *)
Theorem init_tables_keeps_rows o (db db' : database Row) :
  init_tables false o db = (None, db') ->
  (forall n rows, tables db !! n = Some rows -> tables db' !! n = Some rows) /\
  (forall n,
     n ∈ GrafanaAlert_metadata \/ n ∈ RAGEmbedding_metadata ->
     is_Some (tables db' !! n)).
Proof.
  unfold init_tables.
  destruct (create_tables false o (tables (enable_pgvector o db)))
    as [e|t'] eqn:Ht; [discriminate|].
  intros [= <-]. simpl.
  assert (tables (enable_pgvector o db) = tables db) as Heq
    by (unfold enable_pgvector; by destruct (create_extension_raises o)).
  rewrite Heq in Ht. split.
  - intros n rows Hn. rewrite (create_tables_lookup _ _ _ _ n Ht).
    assert (~ (false = true /\ n ∈ GrafanaAlert_metadata)) as Hf
      by (by intros [? _]).
    by rewrite (decide_False _ _ Hf), Hn.
  - intros n Hn. rewrite (create_tables_lookup _ _ _ _ n Ht).
    assert (~ (false = true /\ n ∈ GrafanaAlert_metadata)) as Hf
      by (by intros [? _]).
    rewrite (decide_False _ _ Hf).
    destruct (tables db !! n); [by eexists|].
    rewrite (decide_True _ _ Hn). by eexists.
Qed.

(** X23: [init_tables(delete_tables=True)], when it raises nothing,
    leaves every table of [GrafanaAlert.metadata] empty and every other
    table with its rows: the embeddings survive exactly when their table
    is not one of [GrafanaAlert.metadata]. *)
Theorem init_tables_delete_scope o (db db' : database Row) n rows :
  init_tables true o db = (None, db') ->
  tables db !! n = Some rows ->
  tables db' !! n
    = Some (if decide (n ∈ GrafanaAlert_metadata) then [] else rows).
Proof.
  unfold init_tables.
  destruct (create_tables true o (tables (enable_pgvector o db)))
    as [e|t'] eqn:Ht; [discriminate|].
  intros [= <-] Hn. simpl.
  assert (tables (enable_pgvector o db) = tables db) as Heq
    by (unfold enable_pgvector; by destruct (create_extension_raises o)).
  rewrite Heq in Ht. rewrite (create_tables_lookup _ _ _ _ n Ht).
  assert (n ∈ GrafanaAlert_metadata \/ n ∉ GrafanaAlert_metadata)
    as [Hga|Hga]
    by (destruct (decide (n ∈ GrafanaAlert_metadata)); auto).
  - by rewrite (decide_True _ _ Hga), (decide_True _ _ (conj eq_refl Hga)).
  - assert (~ (true = true /\ n ∈ GrafanaAlert_metadata)) as Hf
      by (by intros [_ ?]).
    by rewrite (decide_False _ _ Hga), (decide_False _ _ Hf), Hn.
Qed.

End InitTablesProperties.

(** * The further properties on concrete runs *)

Lemma first_offending_row_decides_witness :
  load_index pvt pvt fresh_loader (DbRows rows_A_512_B)
  = (inl (ValueError
            "Embedding dimension mismatch: DB has 512, expected 768"),
     fresh_loader).
Proof.
  apply (first_offending_row_decides pvt pvt fresh_loader
           [example_row "A" (basis 0) 768] row_dim_512
           [example_row "B" (basis 1) 768]).
  - reflexivity.
  - constructor; [vm_compute; reflexivity | constructor].
  - vm_compute. reflexivity.
Defined.

Lemma build_follows_storage_order_witness :
  index_to_error_id loader_AB !! 1 = Some "B" /\
  exists v,
    faiss_xb index_AB !! 1%nat = Some v /\
    decodes_to pvt pvt fresh_loader (example_row "B" (basis 1) 768) v.
Proof.
  apply (proj1 (build_follows_storage_order pvt pvt fresh_loader rows_AB
                  index_AB (error_store loader_AB)
                  (index_to_error_id loader_AB)
                  ltac:(vm_compute; reflexivity))
           1%nat (example_row "B" (basis 1) 768)).
  reflexivity.
Defined.

Lemma dimension_mismatch_stops_polling_witness :
  poll_loop pvt pvt 1 storage_dim_512 0 fresh_loader
  = Some (ExitFailed
            (ValueError
               "Embedding dimension mismatch: DB has 512, expected 768"),
          fresh_loader).
Proof.
  apply (dimension_mismatch_stops_polling pvt pvt fresh_loader
           storage_dim_512 0 0 [example_row "A" (basis 0) 768] row_dim_512
           [example_row "B" (basis 1) 768]).
  - reflexivity.
  - unfold max_wait_time. lia.
  - reflexivity.
  - constructor; [vm_compute; reflexivity | constructor].
  - vm_compute. discriminate.
Defined.

Lemma undecodable_row_polling_witness :
  poll_loop pvt pvt 2 storage_marker_key 0 fresh_loader
  = poll_loop pvt pvt 1 storage_marker_key 5 fresh_loader.
Proof.
  destruct (undecodable_row_polling pvt pvt fresh_loader storage_marker_key
              0 1 [example_row "A" (basis 0) 768] row_marker_key []
              (ValueError "Could not parse embedding for No embeddings found yet: invalid format"))
    as [Hpoll _].
  - reflexivity.
  - unfold max_wait_time. lia.
  - reflexivity.
  - constructor; [vm_compute; reflexivity | constructor].
  - reflexivity.
  - vm_compute. reflexivity.
  - exact Hpoll.
Defined.

(** A row whose embedding is the text [null] or NULL is polled again,
    whatever its key is; a text no decoder reads ends the loop. *)
Example null_embedding_is_polled_again :
  poll_loop pvt pvt 2 storage_null_text 0 fresh_loader
    = poll_loop pvt pvt 1 storage_null_text 5 fresh_loader /\
  poll_loop pvt pvt 2 storage_null_column 0 fresh_loader
    = poll_loop pvt pvt 1 storage_null_column 5 fresh_loader /\
  poll_loop pvt pvt 2 storage_unreadable_text 0 fresh_loader
    = Some (ExitFailed
              (ValueError "Could not parse embedding for E: invalid format"),
            fresh_loader).
Proof. repeat split; vm_compute; reflexivity. Qed.

Lemma zero_rows_is_retried_witness :
  (exists self',
     poll_loop pvt pvt 2 storage_rows_after_5 0 fresh_loader
       = Some (ExitLoaded, self') /\
     index self' = Some index_AB /\
     error_store self' = error_store loader_AB /\
     index_to_error_id self' = index_to_error_id loader_AB /\
     health_check (Some self') = Healthy (length rows_AB)) /\
  readiness_check (Some fresh_loader)
    = inl (mkHTTPException 503 "Index not loaded").
Proof.
  destruct (zero_rows_is_retried pvt pvt fresh_loader storage_rows_after_5
              0 0)
    as (_ & _ & Hready & _ & _ & _ & Hnext & _).
  - reflexivity.
  - unfold max_wait_time. lia.
  - reflexivity.
  - split; [|exact Hready].
    apply (Hnext rows_AB index_AB (error_store loader_AB)
             (index_to_error_id loader_AB)).
    + unfold max_wait_time, wait_interval. lia.
    + reflexivity.
    + vm_compute. reflexivity.
Defined.

(** With zero rows at every poll the loop gives up, the loader as it
    was. *)
Example zero_rows_at_every_poll :
  poll_loop pvt pvt 120 storage_empty 0 fresh_loader
  = Some (ExitTimedOut, fresh_loader).
Proof. vm_compute. reflexivity. Qed.

(** A URL whose dialect cannot be loaded: the constructor raises, the
    task ends by that exception, the global stays unassigned and a reload
    is refused. *)
Example constructor_raise_ends_task :
  load_index_background_task pvt pvt engine_for_postgresql 120
    (Some "postgres://db/alm") None storage_after_10 None
  = Some (inl (OtherException "Can't load plugin: sqlalchemy.dialects"),
          None) /\
  reload_index_endpoint pvt pvt None (DbRows rows_AB)
  = (inl (mkHTTPException 503 "Index loader not initialized"), None).
Proof. split; vm_compute; reflexivity. Qed.

(** With a URL the engine accepts, the task runs the loop. *)
Example task_runs_the_loop :
  load_index_background_task pvt pvt engine_for_postgresql 120
    (Some "postgresql://db/alm") None storage_after_10 None
  = Some (inr ExitLoaded, Some loader_AB) /\
  load_index_background_task pvt pvt engine_for_postgresql 120
    (Some "postgresql://db/alm") None storage_empty None
  = Some (inr ExitTimedOut, Some fresh_loader).
Proof. split; vm_compute; reflexivity. Qed.

Lemma first_good_poll_is_loaded_witness :
  exists self,
    load_index_background pvt pvt 120 (Some "postgresql://db/alm") None
      storage_after_10 None = Some (ExitLoaded, Some self) /\
    index self = Some index_AB /\
    error_store self = error_store loader_AB /\
    index_to_error_id self = index_to_error_id loader_AB /\
    health_check (Some self) = Healthy 2.
Proof.
  apply (first_good_poll_is_loaded pvt pvt storage_after_10 2 rows_AB
           index_AB (error_store loader_AB) (index_to_error_id loader_AB)
           "p"%char "ostgresql://db/alm" None).
  - lia.
  - intros k Hk. right.
    exists (OtherException "relation ragembedding does not exist").
    destruct k as [|[|k]]; [by split | by split | lia].
  - reflexivity.
  - vm_compute. reflexivity.
Defined.

Lemma reload_reports_row_count_witness :
  2%nat = length rows_AB /\
  health_check (Some loader_AB) = Healthy (length rows_AB) /\
  readiness_check (Some loader_AB) = inr (Ready (length rows_AB)).
Proof.
  apply (reload_reports_row_count pvt pvt fresh_loader rows_AB 2
           (Some loader_AB)).
  vm_compute. reflexivity.
Defined.

Lemma reload_failure_response_witness :
  readiness_check (Some fresh_loader)
    = inl (mkHTTPException 503 "Index not loaded").
Proof.
  apply (reload_failure_response pvt pvt (Some loader_AB) db_down 500
           "Error reloading index: connection refused" (Some fresh_loader)).
  vm_compute. reflexivity.
Defined.

Lemma fewer_results_is_prefix_witness :
  query_rag (Some loader_AB) query_9_1 2 1 0 = inr (take 1 results_AB).
Proof.
  apply (fewer_results_is_prefix (Some loader_AB) query_9_1 2 1 2 0
           results_AB).
  - lia.
  - vm_compute. reflexivity.
Defined.

Lemma raising_threshold_truncates_witness :
  exists results',
    query_rag (Some loader_AB) query_9_1 2 2 (1 # 2) = inr results' /\
    results' `prefix_of` results_AB.
Proof.
  apply (raising_threshold_truncates (Some loader_AB) query_9_1 2 2 0
           (1 # 2) results_AB).
  - unfold Qle. simpl. lia.
  - vm_compute. reflexivity.
Defined.

Lemma results_bounded_and_distinct_witness :
  (length results_AB <= 2)%nat /\
  (length results_AB <= length rows_AB)%nat /\
  (NoDup (error_id <$> rows_AB) -> NoDup (res_error_id <$> results_AB)).
Proof.
  apply (results_bounded_and_distinct pvt pvt fresh_loader rows_AB index_AB
           (error_store loader_AB) (index_to_error_id loader_AB) loader_AB
           query_9_1 2 2 0 results_AB).
  - reflexivity.
  - vm_compute. reflexivity.
  - vm_compute. reflexivity.
Defined.

Lemma monitor_is_best_effort_witness :
  main world_no_monitor [] = main_try world_no_monitor [].
Proof.
  apply (monitor_is_best_effort world_no_monitor
           (PipelineError "no running event loop")).
  reflexivity.
Defined.

Lemma monitor_exception_replaces_outcome_witness :
  (main world_monitor_crash []).2
  = inl (RuntimeError "kubernetes API unreachable").
Proof.
  apply (monitor_exception_replaces_outcome world_monitor_crash).
  - reflexivity.
  - reflexivity.
  - reflexivity.
Defined.

Lemma failed_preparation_abandons_job_wait_witness :
  JobWaitCreated ∈ (main world_prepare_fails []).1 /\
  (JobWaitSucceeded ∉ (main world_prepare_fails []).1) /\
  (ProcessInvoked ∉ (main world_prepare_fails []).1) /\
  (exists e', (main world_prepare_fails []).2 = inl e').
Proof.
  apply (failed_preparation_abandons_job_wait world_prepare_fails
           (PipelineError "cannot load alerts")).
  - intros e' H. discriminate.
  - reflexivity.
  - reflexivity.
Defined.

Lemma normalize_database_url_asyncpg_witness :
  normalize_database_url "postgresql://alm:secret@db:5432/alm"
    = "postgresql+asyncpg://alm:secret@db:5432/alm" /\
  normalize_database_url "postgresql+asyncpg://alm:secret@db:5432/alm"
    = "postgresql+asyncpg://alm:secret@db:5432/alm" /\
  normalize_database_url "://alm:secret@db:5432/alm"
    = "://alm:secret@db:5432/alm".
Proof.
  apply (normalize_database_url_asyncpg "://alm:secret@db:5432/alm").
  - reflexivity.
  - reflexivity.
Defined.

Lemma init_tables_keeps_rows_witness :
  tables (init_tables ["grafanaalert"] ["ragembedding"] false no_ddl_error
            db_example).2 !! "ragembedding" = Some [7%nat].
Proof.
  apply (proj1 (init_tables_keeps_rows ["grafanaalert"] ["ragembedding"]
                  no_ddl_error db_example _ eq_refl)).
  reflexivity.
Defined.

Lemma init_tables_delete_scope_witness :
  tables (init_tables ["grafanaalert"] ["ragembedding"] true no_ddl_error
            db_example).2 !! "grafanaalert" = Some [] /\
  tables (init_tables ["grafanaalert"] ["ragembedding"] true no_ddl_error
            db_example).2 !! "ragembedding" = Some [7%nat].
Proof.
  split.
  - apply (init_tables_delete_scope ["grafanaalert"] ["ragembedding"]
             no_ddl_error db_example _ "grafanaalert" [1; 2]%nat eq_refl).
    reflexivity.
  - apply (init_tables_delete_scope ["grafanaalert"] ["ragembedding"]
             no_ddl_error db_example _ "ragembedding" [7]%nat eq_refl).
    reflexivity.
Defined.

(** With one metadata for both models, deleting the alerts empties the
    embeddings too. *)
Example shared_metadata_drops_embeddings :
  tables (init_tables ["grafanaalert"; "ragembedding"]
            ["grafanaalert"; "ragembedding"] true no_ddl_error
            db_example).2 !! "ragembedding" = Some [].
Proof. vm_compute. reflexivity. Qed.

(** ** The query in [float32] *)

Lemma search_float32_results_witness :
  exists hits : list nat,
    length hits = (10 `min` ntotal index_AB)%nat /\
    (Forall (fun i => exists error_data,
               candidate_payload loader_AB i = Some error_data /\
               page_is_integer error_data = None)
       (filter (fun i => float32_lt_float
                           (row_score faiss_exact index_AB query_0_7 i)
                           float_0_7 = false) hits) ->
     exists results,
       F32.search faiss_exact page_is_integer loader_AB index_AB query_0_7
         10 3 float_0_7 = inr results /\
       (length results <= 3)%nat /\
       scores_descending results /\
       Forall (fun r => (float_value (float32_of_float float_0_7)
                         <= similarity_score r)%Q) results).
Proof.
  destruct (search_float32_results pvt pvt faiss_exact page_is_integer
              norm_23_digits exact_div fresh_loader (DbRows rows_AB)
              index_AB (error_store loader_AB) (index_to_error_id loader_AB)
              loader_AB query_0_7 10 3 float_0_7)
    as [(hits & Hlen & _ & _ & _ & _ & _ & _ & Hok & _) _].
  - apply faiss_exact_contract.
  - reflexivity.
  - vm_compute. reflexivity.
  - reflexivity.
  - lia.
  - lia.
  - reflexivity.
  - exists hits. split; [exact Hlen|]. intros Hvalid.
    destruct (Hok Hvalid) as (results & H1 & _ & H3 & H4 & H5).
    exists results. split; [exact H1|]. split; [exact H3|].
    split; [exact H4 | exact H5].
Defined.

(** The counterexample to C2: the threshold 0.7 of a request is the Python
    float 0.7; the comparison of line 228 rounds it to [float32], to a
    number below 0.7, and row [A], whose score is that number, is
    returned with a score that is below the threshold of the request. *)
Lemma score_below_threshold_is_returned :
  is_threshold float_0_7 = true /\
  (float_value (float32_of_float float_0_7) < float_value float_0_7)%Q /\
  exists rA rB,
    F32.search faiss_exact always_valid loader_AB index_AB query_0_7 10 3
      float_0_7 = inr [rB; rA] /\
    F32.query_rag faiss_exact always_valid norm_23_digits exact_div
      (Some loader_AB) query_0_7 10 3 float_0_7 = inr [rB; rA] /\
    res_error_id rA = "A" /\
    similarity_score rA = (11744051 # 16777216)%Q /\
    (similarity_score rA < float_value float_0_7)%Q.
Proof.
  split; [reflexivity|]. split; [reflexivity|].
  eexists _, _. split; [vm_compute; reflexivity|].
  split; [vm_compute; reflexivity|].
  split; [reflexivity|]. split; reflexivity.
Qed.

(** A payload the result model refuses makes the query fail as a
    whole. *)
Example refused_page_answers_500 :
  F32.query_rag faiss_exact page_is_integer norm_23_digits exact_div
    (Some loader_page_iv) (basis 0) 10 3 float_0_5
  = inl (mkHTTPException 500
           "Error processing query: 1 validation error for ErrorResult: page").
Proof. vm_compute. reflexivity. Qed.

Lemma no_row_reaches_threshold_witness :
  F32.query_rag faiss_exact always_valid norm_23_digits exact_div
    (Some loader_AB) query_9_1 2 2 float_1 = inr [].
Proof.
  apply (no_row_reaches_threshold faiss_exact always_valid norm_23_digits
           exact_div loader_AB index_AB query_9_1 2 2 float_1).
  - apply faiss_exact_contract.
  - vm_compute. reflexivity.
  - vm_compute. reflexivity.
  - intros [|[|i]] Hi; [vm_compute; reflexivity | vm_compute; reflexivity|].
    unfold ntotal in Hi. simpl in Hi. lia.
Defined.

Lemma zero_query_returns_nothing_witness :
  F32.query_rag faiss_exact always_valid norm_23_digits exact_div
    (Some loader_AB) (replicate 768 0%Q) 10 3 float_0_5 = inr [].
Proof.
  apply (zero_query_returns_nothing faiss_exact always_valid norm_23_digits
           exact_div loader_AB index_AB 768 10 3 float_0_5).
  - apply faiss_exact_contract.
  - vm_compute. reflexivity.
  - reflexivity.
  - vm_compute. discriminate.
  - intros v _. cbn [fvec_inner_product faiss_exact]. by rewrite dot_zero.
  - reflexivity.
Defined.

(** A threshold that rounds to 0 in [float32] lets the zero vector pass:
    every row is returned, with the score 0. *)
Example zero_query_tiny_threshold :
  is_threshold float_1e_46 = true /\
  (fun r => (res_error_id r, similarity_score r)) <$>
    from_option id []
      (match F32.query_rag faiss_exact always_valid norm_23_digits exact_div
               (Some loader_AB) (replicate 768 0%Q) 10 3 float_1e_46 with
       | inr rs => Some rs
       | inl _ => None
       end)
  = [("A", 0%Q); ("B", 0%Q)].
Proof. split; vm_compute; reflexivity. Qed.
